(** * ARTificial: the snowflake cellular automaton of [engine.py]

    A shallow embedding of [CrystalEnvironment], [SnowflakeCell] and
    [CrystalLattice], followed by the properties of the engine.

    Conventions of the embedding.
    - Python floats are modelled by exact rationals kept in lowest terms
      ([Qred] after every operation), so that equal values are
      syntactically equal; rounding error of the machine is not modelled.
    - Python ints are [Z]; list positions are [nat].
    - The list [CrystalLattice.cells] is one shared store: the methods of a
      cell read their neighbours through it and the three loops of
      [CrystalLattice.step] update it in place, cell after cell.
    - [random.random() >= 0.5] is the next value of an ambient coin stream
      [coin : nat -> bool]; the lattice counts the draws made so far.
    - [math.sin (math.radians a)] and [math.cos (math.radians a)] are the
      parameters [sin_deg] and [cos_deg]; [1.0 / math.sqrt 3] is the
      parameter [X_SCALE_FACTOR]. *)

From Stdlib Require Import ZArith QArith Qround Lia Lqa List Bool.
From stdpp Require Import base list.

Local Open Scope Z_scope.

(** ** Numbers *)

Module Float.

Definition add (x y : Q) : Q := Qred (x + y).
Definition sub (x y : Q) : Q := Qred (x - y).
Definition mul (x y : Q) : Q := Qred (x * y).
Definition div (x y : Q) : Q := Qred (x / y).
Definition of_int (n : Z) : Q := inject_Z n.

(** [x <= y], [x < y], [x >= y], [x > y] of Python. *)
Definition le (x y : Q) : bool := Qle_bool x y.
Definition lt (x y : Q) : bool := negb (Qle_bool y x).
Definition ge (x y : Q) : bool := le y x.
Definition gt (x y : Q) : bool := lt y x.

(** [min a b] of Python: [b] when [b < a], else [a]. *)
Definition min (a b : Q) : Q := if lt b a then b else a.

(** [int(round(x))]: Python 3 rounds halves to the even neighbour. *)
Definition round (x : Q) : Z :=
  let f := Qfloor x in
  let r := (x - inject_Z f)%Q in
  if lt r (1 # 2) then f
  else if lt (1 # 2) r then f + 1
  else if Z.even f then f else f + 1.

End Float.

(** ** [CrystalEnvironment] *)

(** The keys a curve source drives ([build_env]'s dictionary). *)
Inductive CurveKey := Beta | Theta | Alpha | Kappa | Mu | Upsilon | Sigma.

(** Modelled from the spec: the curve source [CurveSet] of the module
    [curves], which is not part of the sources.  It yields one scalar per
    key and iteration index and is valid for indices in [[0, steps)];
    any other index is an index error. *)
Record CurveSet := {
  cs_steps : Z;
  cs_value : CurveKey -> Z -> Q
}.

Definition curve_lookup (cs : CurveSet) (key : CurveKey) (x : Z) : option Q :=
  if (0 <=? x) && (x <? cs_steps cs) then Some (cs_value cs key x) else None.

Record CrystalEnvironment := {
  beta : Q; theta : Q; alpha : Q; kappa : Q;
  mu : Q; upsilon : Q; sigma : Q; gamma : Q;
  curves : option CurveSet;
  (** ghost: the arguments [step] was called with so far, oldest first *)
  step_calls : list Z
}.

(** [_init_defaults], with [curves=None]. *)
Definition _init_defaults : CrystalEnvironment :=
  {| beta := 13 # 10; theta := 25 # 1000; alpha := 8 # 100;
     kappa := 3 # 1000; mu := 7 # 100; upsilon := 5 # 100000;
     sigma := 1 # 100000; gamma := 1 # 2;
     curves := None; step_calls := [] |}.

Definition set_key (env : CrystalEnvironment) (key : CurveKey) (v : Q)
  : CrystalEnvironment :=
  match key with
  | Beta => {| beta := v; theta := theta env; alpha := alpha env;
               kappa := kappa env; mu := mu env; upsilon := upsilon env;
               sigma := sigma env; gamma := gamma env;
               curves := curves env; step_calls := step_calls env |}
  | Theta => {| beta := beta env; theta := v; alpha := alpha env;
                kappa := kappa env; mu := mu env; upsilon := upsilon env;
                sigma := sigma env; gamma := gamma env;
                curves := curves env; step_calls := step_calls env |}
  | Alpha => {| beta := beta env; theta := theta env; alpha := v;
                kappa := kappa env; mu := mu env; upsilon := upsilon env;
                sigma := sigma env; gamma := gamma env;
                curves := curves env; step_calls := step_calls env |}
  | Kappa => {| beta := beta env; theta := theta env; alpha := alpha env;
                kappa := v; mu := mu env; upsilon := upsilon env;
                sigma := sigma env; gamma := gamma env;
                curves := curves env; step_calls := step_calls env |}
  | Mu => {| beta := beta env; theta := theta env; alpha := alpha env;
             kappa := kappa env; mu := v; upsilon := upsilon env;
             sigma := sigma env; gamma := gamma env;
             curves := curves env; step_calls := step_calls env |}
  | Upsilon => {| beta := beta env; theta := theta env; alpha := alpha env;
                  kappa := kappa env; mu := mu env; upsilon := v;
                  sigma := sigma env; gamma := gamma env;
                  curves := curves env; step_calls := step_calls env |}
  | Sigma => {| beta := beta env; theta := theta env; alpha := alpha env;
                kappa := kappa env; mu := mu env; upsilon := upsilon env;
                sigma := v; gamma := gamma env;
                curves := curves env; step_calls := step_calls env |}
  end.

Definition log_call (env : CrystalEnvironment) (x : Z) : CrystalEnvironment :=
  {| beta := beta env; theta := theta env; alpha := alpha env;
     kappa := kappa env; mu := mu env; upsilon := upsilon env;
     sigma := sigma env; gamma := gamma env;
     curves := curves env; step_calls := step_calls env ++ [x] |}.

Definition curve_keys : list CurveKey :=
  [Beta; Theta; Alpha; Kappa; Mu; Upsilon; Sigma].

(** The loop [for key in self.curves: self[key] = self.curves[key][x]];
    [None] is the index error of a lookup. *)
Fixpoint rewrite_keys (cs : CurveSet) (x : Z) (keys : list CurveKey)
  (env : CrystalEnvironment) : option CrystalEnvironment :=
  match keys with
  | [] => Some env
  | key :: rest =>
      match curve_lookup cs key x with
      | Some v => rewrite_keys cs x rest (set_key env key v)
      | None => None
      end
  end.

(** [CrystalEnvironment.step]: the environment after the call and whether
    the call returned ([true]) or raised the index error ([false]). *)
Definition env_step (env : CrystalEnvironment) (x : Z)
  : CrystalEnvironment * bool :=
  let env := log_call env x in
  match curves env with
  | None => (env, true)
  | Some cs =>
      match rewrite_keys cs x curve_keys env with
      | Some env' => (env', true)
      | None => (env, false)
      end
  end.

(** ** [SnowflakeCell] *)

Record SnowflakeCell := {
  xy : Z * Z;
  diffusive_mass : Q;
  boundary_mass : Q;
  crystal_mass : Q;
  attached : bool;
  boundary : bool;
  (** positions in the store of the cells snapshotted by [step_one] *)
  attached_neighbors : list nat;
  age : Z;
  (** [_next_dm] and [attachment_flag] are created by [step_one] and
      [step_two]; [step] never reads them before it wrote them *)
  _next_dm : Q;
  attachment_flag : bool
}.

(** [SnowflakeCell.__init__]. *)
Definition new_cell (env : CrystalEnvironment) (p : Z * Z) : SnowflakeCell :=
  {| xy := p; diffusive_mass := gamma env; boundary_mass := 0;
     crystal_mass := 0; attached := false; boundary := false;
     attached_neighbors := []; age := 0;
     _next_dm := 0; attachment_flag := false |}.

Definition set_diffusive_mass (c : SnowflakeCell) (v : Q) : SnowflakeCell :=
  {| xy := xy c; diffusive_mass := v; boundary_mass := boundary_mass c;
     crystal_mass := crystal_mass c; attached := attached c;
     boundary := boundary c; attached_neighbors := attached_neighbors c;
     age := age c; _next_dm := _next_dm c;
     attachment_flag := attachment_flag c |}.

Definition set_masses (c : SnowflakeCell) (d b k : Q) : SnowflakeCell :=
  {| xy := xy c; diffusive_mass := d; boundary_mass := b;
     crystal_mass := k; attached := attached c;
     boundary := boundary c; attached_neighbors := attached_neighbors c;
     age := age c; _next_dm := _next_dm c;
     attachment_flag := attachment_flag c |}.

Definition set_boundary (c : SnowflakeCell) (b : bool) : SnowflakeCell :=
  {| xy := xy c; diffusive_mass := diffusive_mass c;
     boundary_mass := boundary_mass c; crystal_mass := crystal_mass c;
     attached := attached c; boundary := b;
     attached_neighbors := attached_neighbors c;
     age := age c; _next_dm := _next_dm c;
     attachment_flag := attachment_flag c |}.

Definition set_attached_neighbors (c : SnowflakeCell) (l : list nat)
  : SnowflakeCell :=
  {| xy := xy c; diffusive_mass := diffusive_mass c;
     boundary_mass := boundary_mass c; crystal_mass := crystal_mass c;
     attached := attached c; boundary := boundary c;
     attached_neighbors := l;
     age := age c; _next_dm := _next_dm c;
     attachment_flag := attachment_flag c |}.

Definition set_age (c : SnowflakeCell) (a : Z) : SnowflakeCell :=
  {| xy := xy c; diffusive_mass := diffusive_mass c;
     boundary_mass := boundary_mass c; crystal_mass := crystal_mass c;
     attached := attached c; boundary := boundary c;
     attached_neighbors := attached_neighbors c;
     age := a; _next_dm := _next_dm c;
     attachment_flag := attachment_flag c |}.

Definition set_next_dm (c : SnowflakeCell) (v : Q) : SnowflakeCell :=
  {| xy := xy c; diffusive_mass := diffusive_mass c;
     boundary_mass := boundary_mass c; crystal_mass := crystal_mass c;
     attached := attached c; boundary := boundary c;
     attached_neighbors := attached_neighbors c;
     age := age c; _next_dm := v;
     attachment_flag := attachment_flag c |}.

Definition set_attachment_flag (c : SnowflakeCell) (b : bool)
  : SnowflakeCell :=
  {| xy := xy c; diffusive_mass := diffusive_mass c;
     boundary_mass := boundary_mass c; crystal_mass := crystal_mass c;
     attached := attached c; boundary := boundary c;
     attached_neighbors := attached_neighbors c;
     age := age c; _next_dm := _next_dm c;
     attachment_flag := b |}.

(** [attach(offset)]. *)
Definition attach (c : SnowflakeCell) (offset : Q) : SnowflakeCell :=
  {| xy := xy c; diffusive_mass := diffusive_mass c;
     boundary_mass := 0;
     crystal_mass :=
       Float.add (Float.add (boundary_mass c) (crystal_mass c)) offset;
     attached := true;
     boundary := boundary c; attached_neighbors := attached_neighbors c;
     age := age c; _next_dm := _next_dm c;
     attachment_flag := attachment_flag c |}.

(** ** [CrystalLattice] *)

Record CrystalLattice := {
  size : Z;
  environment : CrystalEnvironment;
  iteration : Z;
  margin : Q;
  max_steps : Z;
  cells : list SnowflakeCell;
  (** number of [random.random()] calls made so far *)
  draws : nat
}.

Definition set_cells (L : CrystalLattice) (cs : list SnowflakeCell)
  : CrystalLattice :=
  {| size := size L; environment := environment L;
     iteration := iteration L; margin := margin L;
     max_steps := max_steps L; cells := cs; draws := draws L |}.

Definition set_draws (L : CrystalLattice) (d : nat) : CrystalLattice :=
  {| size := size L; environment := environment L;
     iteration := iteration L; margin := margin L;
     max_steps := max_steps L; cells := cells L; draws := d |}.

(** The assignment through a cell reference held at position [i]. *)
Definition put (L : CrystalLattice) (i : nat) (c : SnowflakeCell)
  : CrystalLattice :=
  set_cells L (<[i := c]> (cells L)).

Definition _cell_index (sz : Z) (p : Z * Z) : Z :=
  let (x, y) := p in y * sz + x.

Definition _xy_ok (sz : Z) (p : Z * Z) : bool :=
  let (x, y) := p in (x >=? 0) && (x <? sz) && (y >=? 0) && (y <? sz).

(** [cells[i]] with Python's indexing: negative positions count from the
    end, anything outside [[-len, len)] is an index error. *)
Definition py_index {A : Type} (l : list A) (i : Z) : option A :=
  let n := Z.of_nat (length l) in
  if (0 <=? i) && (i <? n) then l !! Z.to_nat i
  else if (- n <=? i) && (i <? 0) then l !! Z.to_nat (n + i)
  else None.

(** [get_neighbors]: the positions in the store of the in-grid cells among
    the six candidates, in the order of the source. *)
Definition get_neighbors (sz : Z) (p : Z * Z) : list nat :=
  let (x, y) := p in
  let nlist := [(x, y + 1); (x, y - 1); (x - 1, y); (x + 1, y);
                (x - 1, y - 1); (x + 1, y + 1)] in
  map (fun q => Z.to_nat (_cell_index sz q)) (List.filter (_xy_ok sz) nlist).

(** The property [neighbors] of a cell: the cell objects behind
    [get_neighbors], read from the store as it is now.  The cache of the
    source holds references, so a read through it sees the same. *)
Definition neighbors (L : CrystalLattice) (c : SnowflakeCell)
  : list SnowflakeCell :=
  omap (fun i => cells L !! i) (get_neighbors (size L) (xy c)).

(** ** The methods of a cell

    Each method takes the lattice (for the store and the environment, which
    a cell reaches through [self.lattice] and [self.env]) and the cell as
    it is now, and returns the cell as the method leaves it. *)

(** [update_boundary]. *)
Definition update_boundary (L : CrystalLattice) (c : SnowflakeCell)
  : SnowflakeCell :=
  set_boundary c (negb (attached c) && existsb attached (neighbors L c)).

(** [[cell for cell in self.neighbors if cell.attached]], as positions. *)
Definition attached_among (L : CrystalLattice) (c : SnowflakeCell)
  : list nat :=
  List.filter
    (fun i => match cells L !! i with
              | Some n => attached n
              | None => false
              end)
    (get_neighbors (size L) (xy c)).

(** [diffusion_calc]: the cell (its age may have moved) and the value
    returned. *)
Definition diffusion_calc (L : CrystalLattice) (c : SnowflakeCell)
  : SnowflakeCell * Q :=
  let next_dm := diffusive_mass c in
  if attached c then (c, next_dm)
  else
    let c := set_age c (age c + 1) in
    let next_dm :=
      fold_left
        (fun acc cell =>
           if attached cell then Float.add acc (diffusive_mass c)
           else Float.add acc (diffusive_mass cell))
        (neighbors L c) next_dm in
    (c, Float.div next_dm
          (Float.of_int (Z.of_nat (length (neighbors L c)) + 1))).

(** [step_one]. *)
Definition step_one (L : CrystalLattice) (c : SnowflakeCell)
  : SnowflakeCell :=
  let c := update_boundary L c in
  let c := if boundary c
           then set_attached_neighbors c (attached_among L c) else c in
  let (c, v) := diffusion_calc L c in
  set_next_dm c v.

(** [freezing_step]. *)
Definition freezing_step (L : CrystalLattice) (c : SnowflakeCell)
  : SnowflakeCell :=
  if negb (boundary c) then c
  else
    let env := environment L in
    let b := Float.add (boundary_mass c)
               (Float.mul (Float.sub 1 (kappa env)) (diffusive_mass c)) in
    let k := Float.add (crystal_mass c)
               (Float.mul (kappa env) (diffusive_mass c)) in
    set_masses c 0 b k.

(** The sum [summed_diffusion] built by [attachment_step]. *)
Definition summed_diffusion (L : CrystalLattice) (c : SnowflakeCell) : Q :=
  fold_left (fun acc cell => Float.add acc (diffusive_mass cell))
    (neighbors L c) (diffusive_mass c).

(** [attachment_step]. *)
Definition attachment_step (L : CrystalLattice) (c : SnowflakeCell) : bool :=
  if negb (boundary c) then false
  else
    let env := environment L in
    let attach_count := Z.of_nat (length (attached_neighbors c)) in
    if attach_count <=? 2 then
      if Float.gt (boundary_mass c) (beta env) then true else false
    else if attach_count =? 3 then
      if Float.ge (boundary_mass c) 1 then true
      else
        if Float.lt (summed_diffusion L c) (theta env)
           && Float.ge (boundary_mass c) (alpha env)
        then true else false
    else if attach_count >=? 4 then true
    else false.

(** [melting_step]. *)
Definition melting_step (L : CrystalLattice) (c : SnowflakeCell)
  : SnowflakeCell :=
  if negb (boundary c) then c
  else
    let env := environment L in
    let d := Float.add (diffusive_mass c)
               (Float.add (Float.mul (mu env) (boundary_mass c))
                          (Float.mul (upsilon env) (crystal_mass c))) in
    let b := Float.mul (Float.sub 1 (mu env)) (boundary_mass c) in
    let k := Float.mul (Float.sub 1 (upsilon env)) (crystal_mass c) in
    set_masses c d b k.

(** [step_two]. *)
Definition step_two (L : CrystalLattice) (c : SnowflakeCell)
  : SnowflakeCell :=
  let c := set_diffusive_mass c (_next_dm c) in
  let c := set_attachment_flag c (attached c) in
  let c := freezing_step L c in
  let c := set_attachment_flag c (attachment_step L c) in
  melting_step L c.

Section Engine.

(** The coin stream behind [random.random() >= 0.5]. *)
Variable coin : nat -> bool.

(** [math.sin (math.radians a)] and [math.cos (math.radians a)]. *)
Variables sin_deg cos_deg : Z -> Q.

(** [1.0 / math.sqrt 3]. *)
Variable X_SCALE_FACTOR : Q.

(** [noise_step]: the cell and the number of draws made after it. *)
Definition noise_step (L : CrystalLattice) (c : SnowflakeCell)
  : SnowflakeCell * nat :=
  if boundary c || attached c then (c, draws L)
  else
    let env := environment L in
    if coin (draws L)
    then (set_diffusive_mass c
            (Float.mul (Float.sub 1 (sigma env)) (diffusive_mass c)),
          S (draws L))
    else (set_diffusive_mass c
            (Float.mul (Float.add 1 (sigma env)) (diffusive_mass c)),
          S (draws L)).

(** [step_three]. *)
Definition step_three (L : CrystalLattice) (c : SnowflakeCell)
  : SnowflakeCell * nat :=
  let c := if boundary c && attachment_flag c then attach c 0 else c in
  noise_step L c.

(** ** The loops of [CrystalLattice.step] *)

(** One turn of [for cell in self.cells: if cell.attached: continue;
    cell.method()], at position [i] of the store. *)
Definition visit
  (method : CrystalLattice -> SnowflakeCell -> SnowflakeCell * nat)
  (L : CrystalLattice) (i : nat) : CrystalLattice :=
  match cells L !! i with
  | Some c =>
      if attached c then L
      else let (c', d) := method L c in set_draws (put L i c') d
  | None => L
  end.

Definition for_cells
  (method : CrystalLattice -> SnowflakeCell -> SnowflakeCell * nat)
  (L : CrystalLattice) : CrystalLattice :=
  fold_left (visit method) (seq 0 (length (cells L))) L.

Definition phase_one (L : CrystalLattice) : CrystalLattice :=
  for_cells (fun L c => (step_one L c, draws L)) L.

Definition phase_two (L : CrystalLattice) : CrystalLattice :=
  for_cells (fun L c => (step_two L c, draws L)) L.

Definition phase_three (L : CrystalLattice) : CrystalLattice :=
  for_cells step_three L.

(** A call that returned, or one that raised [IndexError], each with
    the lattice as the call left it. *)
Inductive Outcome :=
| Returned (L : CrystalLattice)
| Raised (L : CrystalLattice).

Definition bump_and_refresh (L : CrystalLattice) : Outcome :=
  let it := iteration L + 1 in
  let (env, ok) := env_step (environment L) it in
  let L' := {| size := size L; environment := env; iteration := it;
               margin := margin L; max_steps := max_steps L;
               cells := cells L; draws := draws L |} in
  if ok then Returned L' else Raised L'.

(** [CrystalLattice.step]. *)
Definition step (L : CrystalLattice) : Outcome :=
  bump_and_refresh (phase_three (phase_two (phase_one L))).

(** ** Radius and crop geometry *)

Inductive result (A : Type) :=
| Value (a : A)
| IndexError
| OutOfFuel.
Arguments Value {A} a.
Arguments IndexError {A}.
Arguments OutOfFuel {A}.

Definition half_width (L : CrystalLattice) : Q :=
  Float.div (Float.of_int (size L)) 2.

(** [polar_to_xy]. *)
Definition polar_to_xy (L : CrystalLattice) (args : Z * Z) : Z * Z :=
  let (angle, distance) := args in
  let half := half_width L in
  let y := Float.round
             (Float.sub half
                (Float.mul (sin_deg angle) (Float.of_int distance))) in
  let x := Float.round
             (Float.add half
                (Float.mul (cos_deg angle) (Float.of_int distance))) in
  (x, y).

(** The [while] loop of [snowflake_radius], entered with [radius]. *)
Fixpoint march (fuel : nat) (L : CrystalLattice) (angle radius : Z)
  : result Z :=
  match fuel with
  | O => OutOfFuel
  | S fuel =>
      if Float.lt (Float.of_int radius) (half_width L) then
        let radius := radius + 1 in
        let p := polar_to_xy L (angle, radius) in
        match py_index (cells L) (_cell_index (size L) p) with
        | None => IndexError
        | Some cell =>
            if attached cell || boundary cell
            then march fuel L angle radius
            else Value radius
        end
      else Value (Float.round (half_width L))
  end.

(** [snowflake_radius(angle)]; the loop makes at most [size] turns. *)
Definition snowflake_radius (L : CrystalLattice) (angle : Z) : result Z :=
  march (S (Z.to_nat (size L))) L angle 0.

(** [headroom]. *)
Definition headroom (L : CrystalLattice) : result bool :=
  if negb (max_steps L =? 0) && (iteration L >=? max_steps L)
  then Value false
  else
    let cutoff := Float.round (Float.mul (margin L) (half_width L)) in
    match snowflake_radius L 135 with
    | Value radius => if radius >? cutoff then Value false else Value true
    | IndexError => IndexError
    | OutOfFuel => OutOfFuel
    end.

(** [grow]: [None] when [fuel] turns of the loop were not enough. *)
Fixpoint grow (fuel : nat) (L : CrystalLattice) : option Outcome :=
  match fuel with
  | O => None
  | S fuel =>
      match step L with
      | Raised L' => Some (Raised L')
      | Returned L' =>
          match headroom L' with
          | Value true => grow fuel L'
          | Value false => Some (Returned L')
          | IndexError => Some (Raised L')
          | OutOfFuel => None
          end
      end
  end.

(** [scale] of [crop_snowflake]. *)
Definition scale (val : Q) : Z :=
  Float.round (Float.mul X_SCALE_FACTOR val).

(** [crop_snowflake(margin)]. *)
Definition crop_snowflake (L : CrystalLattice) (margin : option Q)
  : result (Q * Q * Q * Q) :=
  let margin := match margin with None => 15%Q | Some m => m end in
  let half := half_width L in
  match snowflake_radius L 135 with
  | Value r =>
      let radius := scale (Float.of_int r) in
      let distance := Float.min (Float.add (Float.of_int radius) margin)
                        half in
      let half_s := Float.of_int (scale half) in
      Value (Float.sub half_s distance, Float.sub half distance,
             Float.add half_s distance, Float.add half distance)
  | IndexError => IndexError
  | OutOfFuel => OutOfFuel
  end.

End Engine.

Arguments Value {A} a.
Arguments IndexError {A}.
Arguments OutOfFuel {A}.

(** ** Construction *)

(** [_init_cells] before the seed is attached: the slot [y * size + x]
    holds the cell of position [(x, y)]. *)
Definition fresh_cells (sz : Z) (env : CrystalEnvironment)
  : list SnowflakeCell :=
  map (fun i => let idx := Z.of_nat i in new_cell env (idx mod sz, idx / sz))
      (seq 0 (Z.to_nat (sz * sz))).

(** [CrystalLattice.__init__]; [None] when the construction raises, which
    is the case of [size <= 0]. *)
Definition new_lattice (sz : Z) (env : option CrystalEnvironment)
  (steps : Z) (mrg : option Q) : option CrystalLattice :=
  let env := match env with Some e => e | None => _init_defaults end in
  let mrg := match mrg with
             | Some m => if Qeq_bool m 0 then 85 # 100 else m
             | None => 85 # 100
             end in
  if sz <=? 0 then None
  else
    let cs := fresh_cells sz env in
    let center_pt := _cell_index sz (sz / 2, sz / 2) in
    match py_index cs center_pt with
    | None => None
    | Some c =>
        Some {| size := sz; environment := env; iteration := 1;
                margin := mrg; max_steps := steps;
                cells := <[Z.to_nat center_pt := attach c 1]> cs;
                draws := 0 |}
    end.

(** ** Notions used by the statements *)

Local Open Scope Q_scope.

(** The sum of a list of masses. *)
Definition Qsum (l : list Q) : Q := fold_right Qplus 0 l.

(** The number of attached cells among the neighbours of [c]. *)
Definition attached_count (L : CrystalLattice) (c : SnowflakeCell) : nat :=
  length (List.filter attached (neighbors L c)).

(** The diffusive mass of [c] and of all its neighbours. *)
Definition mass_around (L : CrystalLattice) (c : SnowflakeCell) : Q :=
  diffusive_mass c + Qsum (map diffusive_mass (neighbors L c)).

(** The table of the rule, for [n] attached neighbours. *)
Definition attachment_rule (env : CrystalEnvironment) (n : nat)
  (bm around : Q) : Prop :=
  ((n <= 2)%nat /\ beta env < bm)
  \/ (n = 3%nat /\ (1 <= bm \/ (around < theta env /\ alpha env <= bm)))
  \/ (4 <= n)%nat.

(** The mass held by a cell, and by the whole lattice. *)
Definition cell_mass (c : SnowflakeCell) : Q :=
  diffusive_mass c + boundary_mass c + crystal_mass c.

Definition total_mass (L : CrystalLattice) : Q :=
  Qsum (map cell_mass (cells L)).

Definition nonneg_masses (c : SnowflakeCell) : Prop :=
  0 <= diffusive_mass c /\ 0 <= boundary_mass c /\ 0 <= crystal_mass c.

Definition unit_interval (q : Q) : Prop := 0 <= q /\ q <= 1.

(** kappa, mu, upsilon and sigma lie in [[0, 1]]. *)
Definition rates_in_range (env : CrystalEnvironment) : Prop :=
  unit_interval (kappa env) /\ unit_interval (mu env)
  /\ unit_interval (upsilon env) /\ unit_interval (sigma env).

(** The curve source, when there is one, keeps them there. *)
Definition curves_in_range (env : CrystalEnvironment) : Prop :=
  forall cs, curves env = Some cs ->
    forall x, unit_interval (cs_value cs Kappa x)
              /\ unit_interval (cs_value cs Mu x)
              /\ unit_interval (cs_value cs Upsilon x)
              /\ unit_interval (cs_value cs Sigma x).

Local Close Scope Q_scope.

(** The masses of a cell and the candidate it holds are non-negative. *)
Definition sound_cell (c : SnowflakeCell) : Prop :=
  nonneg_masses c /\ (0 <= _next_dm c)%Q.

(** What a turn of a loop may do to a cell: nothing at all when it is
    attached, and when it attaches it its boundary mass is 0. *)
Definition settles (c c' : SnowflakeCell) : Prop :=
  (attached c = true -> c' = c)
  /\ (attached c = false -> attached c' = true -> boundary_mass c' = 0%Q).

(** Two stores of one grid in which the same cells are attached. *)
Definition same_attached (L L' : CrystalLattice) : Prop :=
  size L' = size L
  /\ forall i, option_map attached (cells L' !! i)
               = option_map attached (cells L !! i).

(** What [step_one] reads of another cell. *)
Definition view (c : SnowflakeCell) : bool * Q :=
  (attached c, diffusive_mass c).

Definition same_views (L L' : CrystalLattice) : Prop :=
  size L' = size L
  /\ forall i, option_map view (cells L' !! i)
               = option_map view (cells L !! i).

(** The lattice as a call left it, whether it returned or raised. *)
Definition state_of (o : Outcome) : CrystalLattice :=
  match o with
  | Returned L => L
  | Raised L => L
  end.

(** [n] calls of [step] in a row. *)
Fixpoint run (coin : nat -> bool) (n : nat) (L : CrystalLattice)
  : CrystalLattice :=
  match n with
  | O => L
  | S n => run coin n (state_of (step coin L))
  end.

(** The cell a ray meets at its step [d], as [snowflake_radius] reads it. *)
Definition ray_cell (sin_deg cos_deg : Z -> Q) (L : CrystalLattice)
  (angle d : Z) : option SnowflakeCell :=
  py_index (cells L)
    (_cell_index (size L) (polar_to_xy sin_deg cos_deg L (angle, d))).

Definition covered (c : SnowflakeCell) : bool := attached c || boundary c.

(** The ray meets at its step [d] a cell that is attached or boundary
    ([b = true]) or neither ([b = false]). *)
Definition meets (sin_deg cos_deg : Z -> Q) (L : CrystalLattice)
  (angle d : Z) (b : bool) : Prop :=
  exists cell, ray_cell sin_deg cos_deg L angle d = Some cell
               /\ covered cell = b.

(** The steps the march of [snowflake_radius] can take: [d >= 1] with
    [d - 1 < size / 2]. *)
Definition on_ray (L : CrystalLattice) (d : Z) : Prop :=
  1 <= d /\ 2 * (d - 1) < size L.

(** The integers [a; a + 1; ...; b]. *)
Definition Zrange (a b : Z) : list Z :=
  map (fun k => a + Z.of_nat k) (seq 0 (Z.to_nat (b + 1 - a))).

(** ** The specification's reading, for comparison with the code *)

(** The radius as the specification words it: the march stops at the
    first cell that is neither attached nor boundary and answers the
    distance of the step before it. *)
Fixpoint march_by_spec (sin_deg cos_deg : Z -> Q) (fuel : nat)
  (L : CrystalLattice) (angle radius : Z) : result Z :=
  match fuel with
  | O => OutOfFuel
  | S fuel =>
      if Float.lt (Float.of_int radius) (half_width L) then
        match ray_cell sin_deg cos_deg L angle (radius + 1) with
        | None => IndexError
        | Some cell =>
            if covered cell
            then march_by_spec sin_deg cos_deg fuel L angle (radius + 1)
            else Value radius
        end
      else Value (Float.round (half_width L))
  end.

Definition radius_by_spec (sin_deg cos_deg : Z -> Q) (L : CrystalLattice)
  (angle : Z) : result Z :=
  march_by_spec sin_deg cos_deg (S (Z.to_nat (size L))) L angle 0.

(** The synchronous update as the specification words it: within a
    phase every cell reads the store as it stood when the phase began,
    and the results are committed together when the phase ends.  The
    draws of the noise are still made cell after cell. *)
Definition visit_sync (snapshot : CrystalLattice)
  (method : CrystalLattice -> SnowflakeCell -> SnowflakeCell * nat)
  (L : CrystalLattice) (i : nat) : CrystalLattice :=
  match cells L !! i with
  | Some c =>
      if attached c then L
      else let (c', d) := method (set_draws snapshot (draws L)) c in
           set_draws (put L i c') d
  | None => L
  end.

Definition for_cells_sync
  (method : CrystalLattice -> SnowflakeCell -> SnowflakeCell * nat)
  (L : CrystalLattice) : CrystalLattice :=
  fold_left (visit_sync L method) (seq 0 (length (cells L))) L.

Definition step_sync (coin : nat -> bool) (L : CrystalLattice) : Outcome :=
  bump_and_refresh
    (for_cells_sync (step_three coin)
       (for_cells_sync (fun L c => (step_two L c, draws L))
          (for_cells_sync (fun L c => (step_one L c, draws L)) L))).

(** Why [headroom] answers false: the limit on the steps is reached, or
    the measured radius exceeds the cutoff. *)
Definition stops (sin_deg cos_deg : Z -> Q) (L : CrystalLattice) : Prop :=
  (max_steps L <> 0 /\ iteration L >= max_steps L)
  \/ exists r, snowflake_radius sin_deg cos_deg L 135 = Value r
               /\ r > Float.round (Float.mul (margin L) (half_width L)).

(** ** Concrete inputs *)

(** The doubles [math.sin (math.radians 135)], [math.cos (math.radians
    135)] and [1.0 / math.sqrt 3], as the fractions they are; 135 is the
    only angle the engine passes. *)
Definition sin_135 (_ : Z) : Q := 6369051672525773 # 9007199254740992.
Definition cos_135 (_ : Z) : Q := - (1592262918131443 # 2251799813685248).
Definition x_scale_factor : Q := 5200308914369309 # 9007199254740992.

(** The coin that always answers [random.random() >= 0.5]. *)
Definition heads (_ : nat) : bool := true.

Definition no_lattice : CrystalLattice :=
  {| size := 0; environment := _init_defaults; iteration := 1;
     margin := 85 # 100; max_steps := 0; cells := []; draws := 0 |}.

(** The lattice a successful construction returns. *)
Definition built (o : option CrystalLattice) : CrystalLattice :=
  default no_lattice o.

(** [CrystalEnvironment(beta=0.4)]. *)
Definition env_beta_04 : CrystalEnvironment :=
  {| beta := 4 # 10; theta := 25 # 1000; alpha := 8 # 100;
     kappa := 3 # 1000; mu := 7 # 100; upsilon := 5 # 100000;
     sigma := 1 # 100000; gamma := 1 # 2;
     curves := None; step_calls := [] |}.

(** [CrystalEnvironment(sigma=0)]: the noise multiplies by 1. *)
Definition env_quiet : CrystalEnvironment :=
  {| beta := 13 # 10; theta := 25 # 1000; alpha := 8 # 100;
     kappa := 3 # 1000; mu := 7 # 100; upsilon := 5 # 100000;
     sigma := 0; gamma := 1 # 2;
     curves := None; step_calls := [] |}.

(** [CrystalEnvironment(beta=0.6, theta=0.5, kappa=0, mu=0, upsilon=0,
    sigma=0)]. *)
Definition env_order : CrystalEnvironment :=
  {| beta := 6 # 10; theta := 1 # 2; alpha := 8 # 100;
     kappa := 0; mu := 0; upsilon := 0;
     sigma := 0; gamma := 1 # 2;
     curves := None; step_calls := [] |}.

(** [CrystalLattice(3)], [CrystalLattice(7, max_steps=3)],
    [CrystalLattice(50, max_steps=200)] and
    [CrystalLattice(50, max_steps=200, margin=0.01)]. *)
Definition lattice3 : CrystalLattice := built (new_lattice 3 None 0 None).
Definition lattice7 : CrystalLattice := built (new_lattice 7 None 3 None).
Definition lattice50 : CrystalLattice :=
  built (new_lattice 50 None 200 None).
Definition lattice50_tight : CrystalLattice :=
  built (new_lattice 50 None 200 (Some (1 # 100)%Q)).

(** [CrystalLattice(3, environment=...)] for the environments above. *)
Definition lattice3_beta_04 : CrystalLattice :=
  built (new_lattice 3 (Some env_beta_04) 0 None).
Definition lattice3_quiet : CrystalLattice :=
  built (new_lattice 3 (Some env_quiet) 0 None).

(** [CrystalLattice(6, environment=env_order)] after four calls of
    [step]. *)
Definition lattice6_order : CrystalLattice :=
  run heads 4 (built (new_lattice 6 (Some env_order) 0 None)).

(** * Properties *)

(** ** Arithmetic of the number model *)

Local Open Scope Q_scope.

Lemma lt_spec (x y : Q) : Float.lt x y = true <-> x < y.
Proof.
  unfold Float.lt. rewrite negb_true_iff, <- not_true_iff_false, Qle_bool_iff.
  split; [apply Qnot_le_lt | apply Qlt_not_le].
Qed.

Lemma le_spec (x y : Q) : Float.le x y = true <-> x <= y.
Proof. apply Qle_bool_iff. Qed.

Lemma gt_spec (x y : Q) : Float.gt x y = true <-> y < x.
Proof. apply lt_spec. Qed.

Lemma ge_spec (x y : Q) : Float.ge x y = true <-> y <= x.
Proof. apply le_spec. Qed.

Lemma add_eq (x y : Q) : Float.add x y == x + y.
Proof. apply Qred_correct. Qed.

Lemma sub_eq (x y : Q) : Float.sub x y == x - y.
Proof. apply Qred_correct. Qed.

Lemma mul_eq (x y : Q) : Float.mul x y == x * y.
Proof. apply Qred_correct. Qed.

Lemma div_eq (x y : Q) : Float.div x y == x / y.
Proof. apply Qred_correct. Qed.

Ltac float_eq :=
  repeat first [ rewrite add_eq | rewrite sub_eq
               | rewrite mul_eq | rewrite div_eq ].

Lemma fold_add_Qsum {A : Type} (f : A -> Q) (l : list A) (a : Q) :
  fold_left (fun acc x => Float.add acc (f x)) l a == a + Qsum (map f l).
Proof.
  revert a. induction l as [|x l IH]; intros a; simpl.
  - ring.
  - rewrite IH, add_eq. ring.
Qed.

(** ** The attachment rule *)

Lemma summed_diffusion_eq (L : CrystalLattice) (c : SnowflakeCell) :
  summed_diffusion L c == mass_around L c.
Proof. unfold summed_diffusion, mass_around. apply fold_add_Qsum. Qed.

Lemma attached_among_count_gen (cs : list SnowflakeCell) (idx : list nat) :
  length (List.filter
            (fun i => match cs !! i with
                      | Some n => attached n
                      | None => false
                      end) idx)
  = length (List.filter attached (omap (fun i => cs !! i) idx)).
Proof.
  induction idx as [|i idx IH]; [reflexivity|].
  cbn [List.filter omap list_omap].
  destruct (cs !! i) as [n|]; [|exact IH].
  cbn [List.filter]. destruct (attached n); cbn [length]; congruence.
Qed.

(** The snapshot taken by [step_one] counts the attached neighbours. *)
Lemma attached_among_count (L : CrystalLattice) (c : SnowflakeCell) :
  length (attached_among L c) = attached_count L c.
Proof. apply attached_among_count_gen. Qed.

(** [step_one] leaves a boundary cell with that snapshot. *)
Lemma step_one_snapshot (L : CrystalLattice) (c : SnowflakeCell) :
  boundary (step_one L c) = true ->
  attached_neighbors (step_one L c) = attached_among L (step_one L c).
Proof.
  unfold step_one, diffusion_calc, update_boundary, attached_among.
  repeat (match goal with |- context [if ?b then _ else _] =>
                            destruct b eqn:? end; simpl in *);
    congruence.
Qed.

Lemma attachment_step_rule (L : CrystalLattice) (c : SnowflakeCell) :
  attachment_step L c = true <->
  boundary c = true /\
  attachment_rule (environment L) (length (attached_neighbors c))
    (boundary_mass c) (summed_diffusion L c).
Proof.
  unfold attachment_step, attachment_rule.
  destruct (boundary c); simpl; [|intuition discriminate].
  set (n := length (attached_neighbors c)).
  destruct (Z.leb_spec (Z.of_nat n) 2) as [H2|H2].
  { destruct (Float.gt (boundary_mass c) (beta (environment L))) eqn:E.
    - apply gt_spec in E. split; [intros _|reflexivity].
      split; [reflexivity|]. left. split; [lia|exact E].
    - split; [discriminate|]. intros [_ [[_ H]|[[H _]|H]]]; try lia.
      apply gt_spec in H. congruence. }
  destruct (Z.eqb_spec (Z.of_nat n) 3) as [H3|H3].
  { destruct (Float.ge (boundary_mass c) 1) eqn:E1.
    - apply ge_spec in E1. split; [intros _|reflexivity].
      split; [reflexivity|]. right; left. split; [lia|]. left. exact E1.
    - destruct (Float.lt (summed_diffusion L c) (theta (environment L)))
        eqn:E2; simpl.
      + destruct (Float.ge (boundary_mass c) (alpha (environment L))) eqn:E3.
        * apply lt_spec in E2. apply ge_spec in E3.
          split; [intros _|reflexivity].
          split; [reflexivity|]. right; left. split; [lia|]. right. tauto.
        * split; [discriminate|].
          intros [_ [[H _]|[[_ [H|[_ H]]]|H]]]; try lia.
          -- apply ge_spec in H. congruence.
          -- apply ge_spec in H. congruence.
      + split; [discriminate|].
        intros [_ [[H _]|[[_ [H|[H _]]]|H]]]; try lia.
        * apply ge_spec in H. congruence.
        * apply lt_spec in H. congruence. }
  destruct (Z.geb_spec (Z.of_nat n) 4) as [H4|H4]; [|lia].
  split; [intros _|reflexivity]. split; [reflexivity|]. right; right. lia.
Qed.

(** C1. For a boundary cell whose snapshot of attached neighbours is the
    one [step_one] takes, [attachment_step] answers true exactly when,
    with [n] the number of attached neighbours: [n <= 2] and the boundary
    mass exceeds beta strictly; or [n = 3] and the boundary mass is at
    least 1, or the diffusive mass summed over the cell and all its
    neighbours is below theta and the boundary mass is at least alpha; or
    [n >= 4].  For a cell that is not a boundary cell the answer is
    false. *)
Theorem attachment_step_table (L : CrystalLattice) (c : SnowflakeCell) :
  attached_neighbors c = attached_among L c ->
  (attachment_step L c = true <->
   boundary c = true /\
   attachment_rule (environment L) (attached_count L c)
     (boundary_mass c) (mass_around L c))
  /\ (boundary c = false -> attachment_step L c = false).
Proof.
  intros Hsnap. split.
  - rewrite attachment_step_rule, Hsnap, attached_among_count.
    unfold attachment_rule. rewrite summed_diffusion_eq. reflexivity.
  - intros Hb. unfold attachment_step. rewrite Hb. reflexivity.
Qed.

(** ** The loops update one cell per turn *)

Section Loops.

Variable method : CrystalLattice -> SnowflakeCell -> SnowflakeCell * nat.

Lemma visit_cases (L : CrystalLattice) (i : nat) :
  visit method L i = L
  \/ exists c, cells L !! i = Some c /\ attached c = false
               /\ visit method L i
                  = set_draws (put L i (fst (method L c)))
                              (snd (method L c)).
Proof.
  unfold visit. destruct (cells L !! i) as [c|] eqn:E; [|now left].
  destruct (attached c) eqn:Ea; [now left|].
  right. exists c. destruct (method L c). auto.
Qed.

Lemma visit_frame (L : CrystalLattice) (i : nat) :
  size (visit method L i) = size L
  /\ environment (visit method L i) = environment L
  /\ iteration (visit method L i) = iteration L
  /\ margin (visit method L i) = margin L
  /\ max_steps (visit method L i) = max_steps L
  /\ length (cells (visit method L i)) = length (cells L).
Proof.
  destruct (visit_cases L i) as [->|(c & _ & _ & ->)]; [tauto|].
  simpl. rewrite length_insert. tauto.
Qed.

Lemma visit_other (L : CrystalLattice) (i j : nat) :
  i <> j -> cells (visit method L i) !! j = cells L !! j.
Proof.
  intros Hij. destruct (visit_cases L i) as [->|(c & _ & _ & ->)];
    [reflexivity|].
  simpl. now apply list_lookup_insert_ne.
Qed.

Lemma visit_attached (L : CrystalLattice) (i : nat) (c : SnowflakeCell) :
  cells L !! i = Some c -> attached c = true -> visit method L i = L.
Proof. intros H Ha. unfold visit. now rewrite H, Ha. Qed.

Lemma visit_live (L : CrystalLattice) (i : nat) (c : SnowflakeCell) :
  cells L !! i = Some c -> attached c = false ->
  cells (visit method L i) !! i = Some (fst (method L c)).
Proof.
  intros H Ha. unfold visit. rewrite H, Ha.
  destruct (method L c) as [c' d]. simpl.
  apply list_lookup_insert_eq. now apply lookup_lt_Some in H.
Qed.

(** Induction over the turns of a loop: [Inv k] holds once the
    positions below [k] have had their turn. *)
Lemma fold_visit_ind (Inv : nat -> CrystalLattice -> Prop)
  (n : nat) (L : CrystalLattice) :
  Inv 0%nat L ->
  (forall k Lk, (k < n)%nat -> Inv k Lk -> Inv (S k) (visit method Lk k)) ->
  Inv n (fold_left (visit method) (seq 0 n) L).
Proof.
  intros H0. induction n as [|n IH]; intros Hstep; [exact H0|].
  rewrite seq_S, fold_left_app. simpl.
  apply Hstep; [lia|]. apply IH. intros k Lk Hk. apply Hstep. lia.
Qed.

Lemma for_cells_ind (Inv : nat -> CrystalLattice -> Prop)
  (L : CrystalLattice) :
  Inv 0%nat L ->
  (forall k Lk, (k < length (cells L))%nat -> Inv k Lk ->
                Inv (S k) (visit method Lk k)) ->
  Inv (length (cells L)) (for_cells method L).
Proof. apply fold_visit_ind. Qed.

Lemma for_cells_inv (Inv : CrystalLattice -> Prop) (L : CrystalLattice) :
  Inv L ->
  (forall Lk i, Inv Lk -> Inv (visit method Lk i)) ->
  Inv (for_cells method L).
Proof.
  intros H0 Hstep.
  apply (for_cells_ind (fun _ => Inv)); [exact H0|].
  intros k Lk _. apply Hstep.
Qed.

Lemma for_cells_frame (L : CrystalLattice) :
  size (for_cells method L) = size L
  /\ environment (for_cells method L) = environment L
  /\ iteration (for_cells method L) = iteration L
  /\ margin (for_cells method L) = margin L
  /\ max_steps (for_cells method L) = max_steps L
  /\ length (cells (for_cells method L)) = length (cells L).
Proof.
  apply (for_cells_inv
           (fun Lk => size Lk = size L
                      /\ environment Lk = environment L
                      /\ iteration Lk = iteration L
                      /\ margin Lk = margin L
                      /\ max_steps Lk = max_steps L
                      /\ length (cells Lk) = length (cells L)));
    [tauto|].
  intros Lk i (H1 & H2 & H3 & H4 & H5 & H6).
  destruct (visit_frame Lk i) as (G1 & G2 & G3 & G4 & G5 & G6).
  repeat split; congruence.
Qed.

(** A relation between the cell before and after its turn, closed under
    no change and under sequencing, relates the stores before and after
    the loop, position by position. *)
Lemma for_cells_pointwise (R : SnowflakeCell -> SnowflakeCell -> Prop)
  (L : CrystalLattice) :
  (forall c, R c c) ->
  (forall a b c, R a b -> R b c -> R a c) ->
  (forall Lk c, attached c = false -> R c (fst (method Lk c))) ->
  forall j c, cells L !! j = Some c ->
    exists c', cells (for_cells method L) !! j = Some c' /\ R c c'.
Proof.
  intros Hrefl Htrans Hm.
  apply (for_cells_inv
           (fun Lk => forall j c, cells L !! j = Some c ->
                        exists c', cells Lk !! j = Some c' /\ R c c')).
  - intros j c Hc. exists c. auto.
  - intros Lk i Hinv j c Hc.
    destruct (Hinv j c Hc) as (c1 & Hc1 & Hr).
    destruct (Nat.eq_dec i j) as [->|Hij].
    + destruct (attached c1) eqn:Ea.
      * rewrite (visit_attached Lk j c1 Hc1 Ea). eauto.
      * exists (fst (method Lk c1)). split;
          [now apply visit_live|]. eapply Htrans; eauto.
    + rewrite visit_other by exact Hij. eauto.
Qed.

(** A property of cells that every turn keeps holds in the whole store
    after the loop. *)
Lemma for_cells_Forall (P : SnowflakeCell -> Prop) (L : CrystalLattice) :
  Forall P (cells L) ->
  (forall Lk c, Forall P (cells Lk) -> size Lk = size L ->
                environment Lk = environment L ->
                P c -> attached c = false -> P (fst (method Lk c))) ->
  Forall P (cells (for_cells method L)).
Proof.
  intros H0 Hm.
  apply (for_cells_inv
           (fun Lk => Forall P (cells Lk) /\ size Lk = size L
                      /\ environment Lk = environment L)
           L (conj H0 (conj eq_refl eq_refl))).
  intros Lk i (HP & Hs & He).
  destruct (visit_frame Lk i) as (G1 & G2 & _).
  split; [|split; congruence].
  destruct (visit_cases Lk i) as [->|(c & Hc & Ha & ->)]; [exact HP|].
  simpl. apply Forall_insert; [exact HP|].
  apply Hm; auto. eapply Forall_lookup_1; eauto.
Qed.

End Loops.


(** ** Attached cells are left alone *)

Lemma step_one_attached (L : CrystalLattice) (c : SnowflakeCell) :
  attached (step_one L c) = attached c.
Proof.
  unfold step_one, diffusion_calc, update_boundary.
  repeat (match goal with |- context [if ?b then _ else _] =>
                            destruct b eqn:? end; simpl in *);
    congruence.
Qed.

Lemma freezing_step_attached (L : CrystalLattice) (c : SnowflakeCell) :
  attached (freezing_step L c) = attached c.
Proof. unfold freezing_step. destruct (boundary c); reflexivity. Qed.

Lemma melting_step_attached (L : CrystalLattice) (c : SnowflakeCell) :
  attached (melting_step L c) = attached c.
Proof. unfold melting_step. destruct (boundary c); reflexivity. Qed.

Lemma step_two_attached (L : CrystalLattice) (c : SnowflakeCell) :
  attached (step_two L c) = attached c.
Proof.
  unfold step_two. rewrite melting_step_attached. simpl.
  rewrite freezing_step_attached. reflexivity.
Qed.

Lemma settles_refl (c : SnowflakeCell) : settles c c.
Proof. split; [reflexivity|congruence]. Qed.

Lemma settles_trans (a b c : SnowflakeCell) :
  settles a b -> settles b c -> settles a c.
Proof.
  intros [H1 H2] [H3 H4]. split.
  - intros Ha. rewrite <- (H1 Ha) in Ha |- *. auto.
  - intros Ha Hc. destruct (attached b) eqn:Hb.
    + rewrite (H3 eq_refl). auto.
    + auto.
Qed.

Lemma step_three_settles (coin : nat -> bool) (L : CrystalLattice)
  (c : SnowflakeCell) :
  attached c = false -> settles c (fst (step_three coin L c)).
Proof.
  intros Ha. split; [congruence|]. intros _.
  unfold step_three, noise_step.
  destruct (boundary c && attachment_flag c) eqn:E; simpl.
  - rewrite orb_true_r. reflexivity.
  - rewrite Ha. destruct (boundary c); simpl; [congruence|].
    destruct (coin (draws L)); simpl; congruence.
Qed.

Lemma phases_settle (coin : nat -> bool) (L : CrystalLattice)
  (j : nat) (c : SnowflakeCell) :
  cells L !! j = Some c ->
  exists c', cells (phase_three coin (phase_two (phase_one L))) !! j = Some c'
             /\ settles c c'.
Proof.
  intros Hc.
  destruct (for_cells_pointwise (fun L c => (step_one L c, draws L))
              settles L settles_refl settles_trans) with (j := j) (c := c)
    as (c1 & Hc1 & R1); [|exact Hc|].
  { intros Lk x Hx. split; [congruence|]. simpl.
    rewrite step_one_attached. congruence. }
  destruct (for_cells_pointwise (fun L c => (step_two L c, draws L))
              settles (phase_one L) settles_refl settles_trans)
    with (j := j) (c := c1) as (c2 & Hc2 & R2); [|exact Hc1|].
  { intros Lk x Hx. split; [congruence|]. simpl.
    rewrite step_two_attached. congruence. }
  destruct (for_cells_pointwise (step_three coin)
              settles (phase_two (phase_one L)) settles_refl settles_trans)
    with (j := j) (c := c2) as (c3 & Hc3 & R3); [|exact Hc2|].
  { intros Lk x Hx. now apply step_three_settles. }
  exists c3. split; [exact Hc3|].
  eauto using settles_trans.
Qed.

Lemma bump_and_refresh_cells (L : CrystalLattice) :
  cells (state_of (bump_and_refresh L)) = cells L.
Proof.
  unfold bump_and_refresh.
  destruct (env_step (environment L) (iteration L + 1)) as [env [|]];
    reflexivity.
Qed.

Lemma step_cells (coin : nat -> bool) (L : CrystalLattice) :
  cells (state_of (step coin L))
  = cells (phase_three coin (phase_two (phase_one L))).
Proof. apply bump_and_refresh_cells. Qed.

Lemma run_settles (coin : nat -> bool) (n : nat) :
  forall (L : CrystalLattice) (j : nat) (c : SnowflakeCell),
    cells L !! j = Some c ->
    exists c', cells (run coin n L) !! j = Some c' /\ settles c c'.
Proof.
  induction n as [|n IH]; intros L j c Hc; simpl.
  - exists c. split; [exact Hc|apply settles_refl].
  - destruct (phases_settle coin L j c Hc) as (c1 & Hc1 & R1).
    rewrite <- step_cells in Hc1.
    destruct (IH _ j c1 Hc1) as (c2 & Hc2 & R2).
    exists c2. split; [exact Hc2|]. eauto using settles_trans.
Qed.

(** C6. Attachment is terminal: over any number of calls of [step], a
    cell that is attached stays attached and keeps every field,
    its three masses and its age included; a cell that was not attached
    and is attached afterwards has boundary mass 0. *)
Theorem attachment_is_terminal (coin : nat -> bool) (n : nat)
  (L : CrystalLattice) (j : nat) (c : SnowflakeCell) :
  cells L !! j = Some c ->
  exists c', cells (run coin n L) !! j = Some c'
    /\ (attached c = true ->
        c' = c /\ attached c' = true
        /\ diffusive_mass c' = diffusive_mass c
        /\ boundary_mass c' = boundary_mass c
        /\ crystal_mass c' = crystal_mass c
        /\ age c' = age c)
    /\ (attached c = false -> attached c' = true ->
        boundary_mass c' = 0%Q).
Proof.
  intros Hc. destruct (run_settles coin n L j c Hc) as (c' & Hc' & H1 & H2).
  exists c'. split; [exact Hc'|]. split; [|exact H2].
  intros Ha. rewrite (H1 Ha). repeat split; auto.
Qed.

(** ** Masses stay non-negative *)

Local Open Scope Q_scope.

Lemma neighbors_Forall (P : SnowflakeCell -> Prop) (L : CrystalLattice)
  (c : SnowflakeCell) :
  Forall P (cells L) -> Forall P (neighbors L c).
Proof.
  intros HP. unfold neighbors.
  induction (get_neighbors (size L) (xy c)) as [|i idx IH];
    [constructor|].
  cbn [omap list_omap]. destruct (cells L !! i) as [n|] eqn:E; [|exact IH].
  constructor; [|exact IH]. exact (Forall_lookup_1 P (cells L) i n HP E).
Qed.

Lemma fold_left_nonneg {A : Type} (g : Q -> A -> Q) (P : A -> Prop)
  (l : list A) (a : Q) :
  0 <= a -> Forall P l ->
  (forall acc x, 0 <= acc -> P x -> 0 <= g acc x) ->
  0 <= fold_left g l a.
Proof.
  intros Ha Hl Hg. revert a Ha.
  induction Hl as [|x l Hx Hl IH]; intros a Ha; simpl; [exact Ha|].
  apply IH. now apply Hg.
Qed.

Lemma div_nonneg (x : Q) (n : nat) :
  0 <= x -> 0 <= Float.div x (Float.of_int (Z.of_nat n + 1)).
Proof.
  intros Hx. rewrite div_eq. apply Qle_shift_div_l.
  - unfold Float.of_int. change 0 with (inject_Z 0).
    rewrite <- Zlt_Qlt. lia.
  - lra.
Qed.

Lemma plus_nonneg (a b : Q) : 0 <= a -> 0 <= b -> 0 <= a + b.
Proof. lra. Qed.

Ltac nonneg :=
  repeat first [ assumption | solve [lra]
               | apply Qmult_le_0_compat | apply plus_nonneg ].

Lemma step_one_sound (L : CrystalLattice) (c : SnowflakeCell) :
  Forall sound_cell (cells L) -> sound_cell c ->
  sound_cell (step_one L c).
Proof.
  intros HL [(Hd & Hb & Hk) Hn].
  unfold step_one, diffusion_calc, update_boundary.
  set (b := negb (attached c) && existsb attached (neighbors L c)).
  assert (Hfold : forall c0 : SnowflakeCell,
             diffusive_mass c0 = diffusive_mass c ->
             0 <= fold_left
                    (fun acc cell =>
                       if attached cell
                       then Float.add acc (diffusive_mass c0)
                       else Float.add acc (diffusive_mass cell))
                    (neighbors L c0) (diffusive_mass c0)).
  { intros c0 E.
    apply fold_left_nonneg with (P := sound_cell).
    - rewrite E. exact Hd.
    - apply neighbors_Forall. exact HL.
    - intros acc x Hacc [(Hx & _) _].
      destruct (attached x); rewrite add_eq; [rewrite E|]; lra. }
  destruct b; simpl; destruct (attached c); simpl;
    repeat split; simpl; auto;
    apply div_nonneg; apply (Hfold _ eq_refl).
Qed.

Lemma step_two_sound (L : CrystalLattice) (c : SnowflakeCell) :
  rates_in_range (environment L) -> sound_cell c ->
  sound_cell (step_two L c).
Proof.
  intros ([K0 K1] & [M0 M1] & [U0 U1] & _) [(Hd & Hb & Hk) Hn].
  unfold step_two, melting_step, freezing_step. simpl.
  destruct (boundary c) eqn:B; simpl; rewrite ?B; simpl;
    [|repeat split; simpl; auto].
  repeat split; simpl; float_eq; nonneg.
Qed.

Lemma step_three_sound (coin : nat -> bool) (L : CrystalLattice)
  (c : SnowflakeCell) :
  rates_in_range (environment L) -> sound_cell c ->
  sound_cell (fst (step_three coin L c)).
Proof.
  intros (_ & _ & _ & [S0 S1]) [(Hd & Hb & Hk) Hn].
  unfold step_three, noise_step.
  destruct (boundary c && attachment_flag c); simpl.
  - rewrite orb_true_r. repeat split; simpl; float_eq; nonneg.
  - destruct (boundary c || attached c); [repeat split; auto|].
    destruct (coin (draws L)); repeat split; simpl; float_eq; nonneg.
Qed.

Lemma phases_sound (coin : nat -> bool) (L : CrystalLattice) :
  rates_in_range (environment L) ->
  Forall sound_cell (cells L) ->
  Forall sound_cell (cells (phase_three coin (phase_two (phase_one L)))).
Proof.
  intros Henv HL.
  destruct (for_cells_frame (fun L c => (step_one L c, draws L)) L)
    as (_ & E1 & _).
  destruct (for_cells_frame (fun L c => (step_two L c, draws L))
              (phase_one L)) as (_ & E2 & _).
  fold (phase_one L) in E1. fold (phase_two (phase_one L)) in E2.
  apply for_cells_Forall.
  - apply for_cells_Forall.
    + apply for_cells_Forall; [exact HL|].
      intros Lk c Hk _ _ Hc _. now apply step_one_sound.
    + intros Lk c _ _ He Hc _. simpl. apply step_two_sound; [|exact Hc].
      rewrite He, E1. exact Henv.
  - intros Lk c _ _ He Hc _. apply step_three_sound; [|exact Hc].
    rewrite He, E2, E1. exact Henv.
Qed.

Lemma phases_environment (coin : nat -> bool) (L : CrystalLattice) :
  environment (phase_three coin (phase_two (phase_one L))) = environment L.
Proof.
  unfold phase_three, phase_two, phase_one.
  repeat match goal with
         | |- context [environment (for_cells ?m ?X)] =>
             let H := fresh in
             destruct (for_cells_frame m X) as (_ & H & _); rewrite H; clear H
         end.
  reflexivity.
Qed.

Lemma env_step_in_range (env : CrystalEnvironment) (x : Z) :
  rates_in_range env -> curves_in_range env ->
  rates_in_range (fst (env_step env x))
  /\ curves_in_range (fst (env_step env x))
  /\ gamma (fst (env_step env x)) = gamma env.
Proof.
  intros Hr Hc. unfold env_step. simpl.
  assert (Hsame : forall e : CrystalEnvironment,
             curves e = curves env -> curves_in_range e).
  { intros e He cs. rewrite He. apply Hc. }
  destruct (curves env) as [cs|] eqn:E; simpl.
  - unfold curve_keys, rewrite_keys, curve_lookup.
    destruct ((0 <=? x)%Z && (x <? cs_steps cs)%Z); simpl.
    + destruct (Hc cs E x) as (H1 & H2 & H3 & H4).
      split; [unfold rates_in_range; simpl; tauto|].
      split; [|reflexivity]. apply Hsame; simpl; congruence.
    + split; [exact Hr|]. split; [|reflexivity]. apply Hsame; simpl; congruence.
  - split; [exact Hr|]. split; [|reflexivity]. apply Hsame; simpl; congruence.
Qed.

Lemma step_environment (coin : nat -> bool) (L : CrystalLattice) :
  environment (state_of (step coin L))
  = fst (env_step (environment L) (iteration L + 1)).
Proof.
  unfold step, bump_and_refresh. rewrite phases_environment.
  destruct (for_cells_frame (step_three coin) (phase_two (phase_one L)))
    as (_ & _ & I3 & _).
  destruct (for_cells_frame (fun L c => (step_two L c, draws L))
              (phase_one L)) as (_ & _ & I2 & _).
  destruct (for_cells_frame (fun L c => (step_one L c, draws L)) L)
    as (_ & _ & I1 & _).
  fold (phase_three coin (phase_two (phase_one L))) in I3.
  fold (phase_two (phase_one L)) in I2. fold (phase_one L) in I1.
  rewrite I3, I2, I1.
  destruct (env_step (environment L) (iteration L + 1)) as [env [|]];
    reflexivity.
Qed.

Lemma run_sound (coin : nat -> bool) (n : nat) :
  forall L : CrystalLattice,
    rates_in_range (environment L) -> curves_in_range (environment L) ->
    Forall sound_cell (cells L) ->
    Forall sound_cell (cells (run coin n L)).
Proof.
  induction n as [|n IH]; intros L Hr Hc HL; simpl; [exact HL|].
  destruct (env_step_in_range (environment L) (iteration L + 1) Hr Hc)
    as (Hr' & Hc' & _).
  apply IH.
  - rewrite step_environment. exact Hr'.
  - rewrite step_environment. exact Hc'.
  - rewrite step_cells. now apply phases_sound.
Qed.

Lemma new_lattice_sound (sz : Z) (env : option CrystalEnvironment)
  (steps : Z) (mrg : option Q) (L : CrystalLattice) :
  new_lattice sz env steps mrg = Some L ->
  0 <= gamma (environment L) ->
  Forall sound_cell (cells L).
Proof.
  unfold new_lattice. destruct (sz <=? 0)%Z; [discriminate|].
  set (e := match env with Some e => e | None => _init_defaults end).
  destruct (py_index (fresh_cells sz e) _) as [c|] eqn:E; [|discriminate].
  intros [= <-]. simpl. intros Hg.
  assert (Hfresh : Forall sound_cell (fresh_cells sz e)).
  { unfold fresh_cells. apply Forall_map, Forall_forall. intros i _.
    repeat split; simpl; auto; lra. }
  apply Forall_insert; [exact Hfresh|].
  assert (Hc : sound_cell c).
  { unfold py_index in E.
    repeat match type of E with
           | (if ?b then _ else _) = _ => destruct b
           end; try discriminate;
      eapply Forall_lookup_1; eauto. }
  destruct Hc as [(Hd & Hb & Hk) Hn].
  repeat split; simpl; float_eq; auto; lra.
Qed.

(** C7. Mass non-negativity: on a lattice as [CrystalLattice(...)] builds
    it, with a background density gamma that is not negative and with
    kappa, mu, upsilon and sigma in [[0, 1]] now and wherever the curve
    source sets them, every cell has non-negative diffusive, boundary and
    crystal mass after any number of calls of [step]. *)
Theorem masses_stay_nonneg (coin : nat -> bool) (sz : Z)
  (env : option CrystalEnvironment) (steps : Z) (mrg : option Q)
  (L : CrystalLattice) (n : nat) :
  new_lattice sz env steps mrg = Some L ->
  0 <= gamma (environment L) ->
  rates_in_range (environment L) ->
  curves_in_range (environment L) ->
  Forall nonneg_masses (cells (run coin n L)).
Proof.
  intros Hnew Hg Hr Hc.
  eapply Forall_impl;
    [apply run_sound; eauto using new_lattice_sound|].
  intros c [H _]. exact H.
Qed.

Local Close Scope Q_scope.

(** ** The boundary flag *)

Lemma same_attached_neighbors (L L' : CrystalLattice) (p : Z * Z)
  (c c' : SnowflakeCell) :
  same_attached L L' -> xy c = p -> xy c' = p ->
  map attached (neighbors L' c') = map attached (neighbors L c).
Proof.
  intros [Hs Hat] Hc Hc'. unfold neighbors. rewrite Hs, Hc, Hc'.
  induction (get_neighbors (size L) p) as [|i idx IH]; [reflexivity|].
  cbn [omap list_omap]. specialize (Hat i).
  destruct (cells L' !! i) as [a|], (cells L !! i) as [b|];
    simpl in Hat; try discriminate; [|exact IH].
  simpl. congruence.
Qed.

Lemma existsb_map {A : Type} (f : A -> bool) (l : list A) :
  existsb f l = existsb (fun b => b) (map f l).
Proof. induction l as [|x l IH]; simpl; congruence. Qed.

Lemma step_one_boundary (L : CrystalLattice) (c : SnowflakeCell) :
  boundary (step_one L c)
  = negb (attached c) && existsb attached (neighbors L c).
Proof.
  unfold step_one, diffusion_calc, update_boundary.
  repeat (match goal with |- context [if ?b then _ else _] =>
                            destruct b eqn:? end; simpl in *);
    congruence.
Qed.

Lemma step_one_xy (L : CrystalLattice) (c : SnowflakeCell) :
  xy (step_one L c) = xy c.
Proof.
  unfold step_one, diffusion_calc, update_boundary.
  repeat (match goal with |- context [if ?b then _ else _] =>
                            destruct b eqn:? end; simpl in *);
    congruence.
Qed.

(** Phase 1 gives every cell that is not attached the flag computed from
    the attachments as they were when the phase began. *)
Lemma phase_one_boundary (L : CrystalLattice) (j : nat) (c : SnowflakeCell) :
  cells L !! j = Some c ->
  exists c', cells (phase_one L) !! j = Some c'
    /\ attached c' = attached c
    /\ (attached c = false ->
        boundary c' = existsb attached (neighbors L c))
    /\ (attached c = true -> c' = c).
Proof.
  intros Hc.
  pose (Inv := fun (k : nat) (Lk : CrystalLattice) =>
    size Lk = size L /\ length (cells Lk) = length (cells L)
    /\ forall j c, cells L !! j = Some c ->
         exists c', cells Lk !! j = Some c'
           /\ attached c' = attached c /\ xy c' = xy c
           /\ ((j < k)%nat -> attached c = false ->
               boundary c' = existsb attached (neighbors L c))
           /\ ((k <= j)%nat -> c' = c)
           /\ (attached c = true -> c' = c)).
  assert (Hend : Inv (length (cells L)) (phase_one L)).
  { apply (for_cells_ind (fun L c => (step_one L c, draws L)) Inv).
    - split; [reflexivity|]. split; [reflexivity|].
      intros i x Hx. exists x. repeat split; auto. lia.
    - intros k Lk Hk (Hs & Hl & Hcells).
      set (m := fun L c => (step_one L c, draws L)).
      destruct (visit_frame m Lk k) as (Fs & _ & _ & _ & _ & Fl).
      split; [congruence|]. split; [congruence|].
      assert (Hsame : same_attached L Lk).
      { split; [exact Hs|]. intros i.
        destruct (cells L !! i) as [x|] eqn:Ex.
        - destruct (Hcells i x Ex) as (x' & -> & Ha & _). simpl. congruence.
        - apply lookup_ge_None in Ex. rewrite <- Hl in Ex.
          apply lookup_ge_None in Ex. rewrite Ex. reflexivity. }
      intros i x Hx.
      destruct (Hcells i x Hx) as (x' & Hx' & Ha & Hxy & Hlt & Hge & Hatt).
      destruct (Nat.eq_dec k i) as [->|Hki].
      + destruct (attached x') eqn:Ea.
        * rewrite (visit_attached m Lk i x' Hx' Ea).
          exists x'. repeat split; auto; try congruence;
            try (intros; congruence); intros; apply Hatt; congruence.
        * exists (step_one Lk x'). split; [apply (visit_live m); auto|].
          rewrite step_one_attached, step_one_xy, step_one_boundary.
          rewrite (Hge (Nat.le_refl i)) in *.
          repeat split; auto; try lia; try congruence.
          intros _ _. rewrite Ea. simpl.
          rewrite (existsb_map attached (neighbors Lk x)),
                  (existsb_map attached (neighbors L x)).
          f_equal. now apply same_attached_neighbors with (p := xy x).
      + rewrite (visit_other m) by exact Hki.
        exists x'. repeat split; auto.
        * intros Hlt' Hx0. apply Hlt; [lia|exact Hx0].
        * intros Hge'. apply Hge. lia. }
  destruct Hend as (_ & _ & Hcells).
  destruct (Hcells j c Hc) as (c' & Hc' & Ha & _ & Hb & _ & Hatt).
  exists c'. repeat split; auto.
  intros Hf. apply Hb; [|exact Hf]. now apply lookup_lt_Some in Hc.
Qed.

Lemma step_two_boundary (L : CrystalLattice) (c : SnowflakeCell) :
  boundary (step_two L c) = boundary c.
Proof.
  unfold step_two, melting_step, freezing_step. simpl.
  destruct (boundary c) eqn:B; simpl; rewrite ?B; simpl; congruence.
Qed.

Lemma step_three_boundary (coin : nat -> bool) (L : CrystalLattice)
  (c : SnowflakeCell) :
  boundary (fst (step_three coin L c)) = boundary c.
Proof.
  unfold step_three, noise_step.
  repeat (match goal with |- context [if ?b then _ else _] =>
                            destruct b eqn:? end; simpl in *);
    congruence.
Qed.

(** C5, as the code has it. After a call of [step], a cell that was not
    attached when the call began holds the flag "some neighbour was
    attached when the call began"; a cell that was attached when the call
    began keeps the flag it had.  The flag is not computed again after
    the attachments of Phase 3. *)
Theorem boundary_after_step (coin : nat -> bool) (L : CrystalLattice)
  (j : nat) (c : SnowflakeCell) :
  cells L !! j = Some c ->
  exists c', cells (state_of (step coin L)) !! j = Some c'
    /\ (attached c = false ->
        boundary c' = existsb attached (neighbors L c))
    /\ (attached c = true -> boundary c' = boundary c).
Proof.
  intros Hc. rewrite step_cells.
  destruct (phase_one_boundary L j c Hc) as (c1 & Hc1 & Ha1 & Hb1 & Hk1).
  pose (R := fun a b : SnowflakeCell => boundary b = boundary a).
  assert (Rrefl : forall a, R a a) by reflexivity.
  assert (Rtrans : forall a b d, R a b -> R b d -> R a d)
    by (unfold R; intros; congruence).
  destruct (for_cells_pointwise (fun L c => (step_two L c, draws L))
              R (phase_one L) Rrefl Rtrans) with (j := j) (c := c1)
    as (c2 & Hc2 & R2); [|exact Hc1|].
  { intros Lk x _. apply step_two_boundary. }
  destruct (for_cells_pointwise (step_three coin)
              R (phase_two (phase_one L)) Rrefl Rtrans)
    with (j := j) (c := c2) as (c3 & Hc3 & R3); [|exact Hc2|].
  { intros Lk x _. apply step_three_boundary. }
  exists c3. split; [exact Hc3|]. unfold R in *. split.
  - intros Hf. rewrite R3, R2. auto.
  - intros Ht. rewrite R3, R2, (Hk1 Ht). reflexivity.
Qed.

(** ** Mass through freezing, attachment and melting *)

Local Open Scope Q_scope.

(** C8, as the code has it. Freezing, melting and attachment with
    offset 0 each leave the mass of the cell they act on unchanged, and
    [step_two] as a whole turns the committed candidate and the boundary
    and crystal mass into a cell of the same mass.  The exchange between
    cells, which is the diffusion average over [len(neighbors) + 1], is
    not part of the statement. *)
Theorem sub_steps_conserve_cell_mass (L : CrystalLattice)
  (c : SnowflakeCell) :
  cell_mass (freezing_step L c) == cell_mass c
  /\ cell_mass (melting_step L c) == cell_mass c
  /\ cell_mass (attach c 0) == cell_mass c
  /\ cell_mass (step_two L c)
     == _next_dm c + boundary_mass c + crystal_mass c.
Proof.
  unfold cell_mass, step_two, freezing_step, melting_step.
  destruct (boundary c) eqn:B; repeat (simpl; rewrite B); simpl;
    repeat split; float_eq; ring.
Qed.

(** ** The radius *)

Lemma half_width_eq (L : CrystalLattice) :
  half_width L == inject_Z (size L) / 2.
Proof. unfold half_width. apply div_eq. Qed.

Lemma lt_half (L : CrystalLattice) (r : Z) :
  Float.lt (Float.of_int r) (half_width L) = true <-> (2 * r < size L)%Z.
Proof.
  rewrite lt_spec, half_width_eq. unfold Float.of_int, Qlt, Qdiv. simpl.
  lia.
Qed.

Section Radius.

Variables sin_deg cos_deg : Z -> Q.
Variable L : CrystalLattice.
Variable angle : Z.

Lemma march_first_gap (fuel : nat) :
  forall r : Z,
    (0 <= r)%Z ->
    (Z.max 0 (size L - 2 * r) < Z.of_nat fuel)%Z ->
    (forall d, (r < d)%Z -> on_ray L d ->
               is_Some (ray_cell sin_deg cos_deg L angle d)) ->
    exists v, march sin_deg cos_deg fuel L angle r = Value v
      /\ (((r < v)%Z /\ on_ray L v
           /\ meets sin_deg cos_deg L angle v false
           /\ (forall d, (r < d < v)%Z ->
                 meets sin_deg cos_deg L angle d true))
          \/ (v = Float.round (half_width L)
              /\ forall d, (r < d)%Z -> on_ray L d ->
                   meets sin_deg cos_deg L angle d true)).
Proof.
  induction fuel as [|fuel IH]; intros r Hr Hfuel Hin; [lia|].
  cbn [march].
  destruct (Float.lt (Float.of_int r) (half_width L)) eqn:Elt.
  - apply lt_half in Elt.
    assert (Hon : on_ray L (r + 1)) by (unfold on_ray; lia).
    destruct (Hin (r + 1)%Z ltac:(lia) Hon) as [cell Hcell].
    assert (Hmeet : meets sin_deg cos_deg L angle (r + 1) (covered cell))
      by (exists cell; auto).
    unfold ray_cell in Hcell. rewrite Hcell.
    fold (covered cell). destruct (covered cell) eqn:Ecov.
    + destruct (IH (r + 1)%Z ltac:(lia) ltac:(lia)) as (v & Hv & Hcase).
      { intros d Hd. apply Hin. lia. }
      exists v. split; [exact Hv|].
      destruct Hcase as [(H1 & H2 & H3 & H4)|(H1 & H2)]; [left|right].
      * split; [lia|]. split; [exact H2|]. split; [exact H3|].
        intros d Hd. destruct (Z.eq_dec d (r + 1)%Z) as [->|Hne];
          [exact Hmeet|]. apply H4. lia.
      * split; [exact H1|]. intros d Hd Hond.
        destruct (Z.eq_dec d (r + 1)%Z) as [->|Hne]; [exact Hmeet|].
        apply H2; [lia|exact Hond].
    + exists (r + 1)%Z. split; [reflexivity|]. left.
      split; [lia|]. split; [exact Hon|].
      split; [exact Hmeet|]. intros d Hd. lia.
  - exists (Float.round (half_width L)). split; [reflexivity|]. right.
    split; [reflexivity|]. intros d Hd [_ Hd2].
    assert (Hnot : ~ (2 * r < size L)%Z).
    { intros H. apply lt_half in H. congruence. }
    lia.
Qed.

(** C3, as the code has it. When every step of the ray falls on a cell
    of the store, [snowflake_radius] returns; the value is the distance
    of the first step whose cell is neither attached nor boundary, every
    step before it being attached or boundary, and it is the half width
    rounded to an integer when there is no such step. *)
Theorem snowflake_radius_first_gap :
  (forall d, on_ray L d -> is_Some (ray_cell sin_deg cos_deg L angle d)) ->
  exists v, snowflake_radius sin_deg cos_deg L angle = Value v
    /\ ((on_ray L v
         /\ meets sin_deg cos_deg L angle v false
         /\ (forall d, (1 <= d < v)%Z ->
               meets sin_deg cos_deg L angle d true))
        \/ (v = Float.round (half_width L)
            /\ forall d, on_ray L d ->
                 meets sin_deg cos_deg L angle d true)).
Proof.
  intros Hin. unfold snowflake_radius.
  destruct (march_first_gap (S (Z.to_nat (size L))) 0%Z) as (v & Hv & Hcase);
    [lia|lia|auto|].
  exists v. split; [exact Hv|].
  destruct Hcase as [(H1 & H2 & H3 & H4)|(H1 & H2)]; [left|right].
  - split; [exact H2|]. split; [exact H3|]. intros d Hd. apply H4. lia.
  - split; [exact H1|]. intros d Hd. apply H2; [|exact Hd].
    destruct Hd. lia.
Qed.

(** The loop of [snowflake_radius] never runs out of turns. *)
Lemma march_fuel (fuel : nat) :
  forall r : Z,
    (Z.max 0 (size L - 2 * r) < Z.of_nat fuel)%Z ->
    march sin_deg cos_deg fuel L angle r <> OutOfFuel.
Proof.
  induction fuel as [|fuel IH]; intros r Hfuel; [lia|].
  cbn [march].
  destruct (Float.lt (Float.of_int r) (half_width L)) eqn:Elt;
    [|discriminate].
  apply lt_half in Elt.
  destruct (py_index _ _) as [cell|]; [|discriminate].
  destruct (attached cell || boundary cell); [|discriminate].
  apply IH. lia.
Qed.

Lemma snowflake_radius_fuel :
  snowflake_radius sin_deg cos_deg L angle <> OutOfFuel.
Proof. apply march_fuel. lia. Qed.

End Radius.

(** ** The crop box *)

Lemma min_le_r (a b : Q) : Float.min a b <= b.
Proof.
  unfold Float.min. destruct (Float.lt b a) eqn:E; [lra|].
  apply Qnot_lt_le. intros H. apply lt_spec in H. congruence.
Qed.

(** C4, as the code has it. Once the radius is measured,
    [crop_snowflake] returns the box
    [(half_s - d, half - d, half_s + d, half + d)] whose distance [d]
    does not exceed the half width of the grid; hence its second
    component is not negative and its fourth component is at most
    [size].  Nothing is said of the first and third components, which
    are centred on the scaled half width. *)
Theorem crop_box_distance (sin_deg cos_deg : Z -> Q) (X_SCALE_FACTOR : Q)
  (L : CrystalLattice) (margin : option Q) (r : Z) :
  snowflake_radius sin_deg cos_deg L 135 = Value r ->
  exists d : Q,
    crop_snowflake sin_deg cos_deg X_SCALE_FACTOR L margin
    = Value (Float.sub (Float.of_int (scale X_SCALE_FACTOR (half_width L))) d,
             Float.sub (half_width L) d,
             Float.add (Float.of_int (scale X_SCALE_FACTOR (half_width L))) d,
             Float.add (half_width L) d)
    /\ d <= half_width L
    /\ 0 <= Float.sub (half_width L) d
    /\ Float.add (half_width L) d <= inject_Z (size L).
Proof.
  intros Hr. unfold crop_snowflake. rewrite Hr.
  eexists. split; [reflexivity|].
  match goal with |- ?d <= _ /\ _ => set (dist := d) end.
  assert (Hd : dist <= half_width L) by apply min_le_r.
  split; [exact Hd|]. float_eq.
  assert (Hh := half_width_eq L).
  split; [lra|].
  assert (inject_Z (size L) == 2 * half_width L) by (rewrite Hh; field).
  lra.
Qed.

Local Close Scope Q_scope.

(** ** Which loops are synchronous *)

Lemma same_views_neighbors (L L' : CrystalLattice) (c : SnowflakeCell) :
  same_views L L' ->
  map view (neighbors L' c) = map view (neighbors L c).
Proof.
  intros [Hs Hv]. unfold neighbors. rewrite Hs.
  induction (get_neighbors (size L) (xy c)) as [|i idx IH]; [reflexivity|].
  cbn [omap list_omap]. specialize (Hv i).
  destruct (cells L' !! i) as [a|], (cells L !! i) as [b|];
    simpl in Hv; try discriminate; [|exact IH].
  simpl. congruence.
Qed.

Lemma same_views_attached_among (L L' : CrystalLattice) (c : SnowflakeCell) :
  same_views L L' -> attached_among L' c = attached_among L c.
Proof.
  intros [Hs Hv]. unfold attached_among. rewrite Hs.
  induction (get_neighbors (size L) (xy c)) as [|i idx IH]; [reflexivity|].
  cbn [List.filter]. rewrite IH. specialize (Hv i).
  destruct (cells L' !! i) as [a|], (cells L !! i) as [b|];
    simpl in Hv; try discriminate; [|reflexivity].
  injection Hv as Ha _. rewrite Ha. reflexivity.
Qed.

Lemma fold_left_view {A : Type} (g : A -> bool * Q -> A)
  (l : list SnowflakeCell) (a : A) :
  fold_left (fun acc x => g acc (view x)) l a = fold_left g (map view l) a.
Proof. revert a. induction l as [|x l IH]; intros a; simpl; auto. Qed.

(** [step_one] gives the same cell in two stores with the same views. *)
Lemma step_one_same_views (L L' : CrystalLattice) (c : SnowflakeCell) :
  same_views L L' -> step_one L' c = step_one L c.
Proof.
  intros Hv.
  assert (Hn : forall x : SnowflakeCell,
             map view (neighbors L' x) = map view (neighbors L x))
    by (intros x; now apply same_views_neighbors).
  assert (Ha : forall x : SnowflakeCell,
             attached_among L' x = attached_among L x)
    by (intros x; now apply same_views_attached_among).
  assert (He : forall x : SnowflakeCell,
             existsb attached (neighbors L' x)
             = existsb attached (neighbors L x)).
  { intros x. rewrite !(existsb_map attached).
    rewrite <- !(map_map view fst), Hn. reflexivity. }
  assert (Hl : forall x : SnowflakeCell,
             length (neighbors L' x) = length (neighbors L x)).
  { intros x. rewrite <- (length_map view (neighbors L' x)), Hn.
    apply length_map. }
  assert (Hf : forall (x : SnowflakeCell) (m a : Q),
             fold_left
               (fun acc cell =>
                  if attached cell then Float.add acc m
                  else Float.add acc (diffusive_mass cell))
               (neighbors L' x) a
             = fold_left
                 (fun acc cell =>
                    if attached cell then Float.add acc m
                    else Float.add acc (diffusive_mass cell))
                 (neighbors L x) a).
  { intros x m a.
    pose (g := fun (acc : Q) (v : bool * Q) =>
                 if fst v then Float.add acc m else Float.add acc (snd v)).
    change (fold_left (fun acc cell => g acc (view cell))
              (neighbors L' x) a
            = fold_left (fun acc cell => g acc (view cell))
                (neighbors L x) a).
    rewrite !fold_left_view, Hn. reflexivity. }
  unfold step_one, diffusion_calc, update_boundary.
  rewrite He. simpl.
  destruct (negb (attached c) && existsb attached (neighbors L c));
    simpl; rewrite ?Ha; destruct (attached c); simpl;
    rewrite ?Hf, ?Hl; reflexivity.
Qed.

Lemma step_one_view (L : CrystalLattice) (c : SnowflakeCell) :
  view (step_one L c) = view c.
Proof.
  unfold view, step_one, diffusion_calc, update_boundary.
  repeat (match goal with |- context [if ?b then _ else _] =>
                            destruct b eqn:? end; simpl in *);
    congruence.
Qed.

(** A loop whose method gives in every store it meets what it gives in
    the store the loop began with is the synchronous loop. *)
Lemma for_cells_synchronous
  (method : CrystalLattice -> SnowflakeCell -> SnowflakeCell * nat)
  (Inv : CrystalLattice -> Prop) (L : CrystalLattice) :
  Inv L ->
  (forall Lk i, Inv Lk -> Inv (visit method Lk i)) ->
  (forall Lk c, Inv Lk ->
                method Lk c = method (set_draws L (draws Lk)) c) ->
  for_cells method L = for_cells_sync method L.
Proof.
  intros H0 Hkeep Hsame. unfold for_cells, for_cells_sync.
  generalize (length (cells L)) as n. intros n.
  enough (H : fold_left (visit method) (seq 0 n) L
              = fold_left (visit_sync L method) (seq 0 n) L
              /\ Inv (fold_left (visit method) (seq 0 n) L)) by apply H.
  induction n as [|n [IHeq IHinv]]; [auto|].
  rewrite !seq_S, !fold_left_app. cbn [fold_left Nat.add]. rewrite <- IHeq.
  set (X := fold_left (visit method) (seq 0 n) L) in *.
  split; [|now apply Hkeep].
  unfold visit, visit_sync.
  destruct (cells X !! n) as [c|]; [|reflexivity].
  destruct (attached c); [reflexivity|].
  rewrite (Hsame X c IHinv). reflexivity.
Qed.

(** The first loop of [step] is synchronous: [step_one] reads of the
    other cells what no [step_one] writes. *)
Lemma phase_one_synchronous (L : CrystalLattice) :
  phase_one L = for_cells_sync (fun L c => (step_one L c, draws L)) L.
Proof.
  apply (for_cells_synchronous _ (same_views L)).
  - split; auto.
  - intros Lk i [Hs Hv].
    set (m := fun L c => (step_one L c, draws L)).
    destruct (visit_frame m Lk i) as (Fs & _).
    split; [congruence|]. intros j.
    destruct (Nat.eq_dec i j) as [->|Hij];
      [|rewrite (visit_other m) by exact Hij; apply Hv].
    destruct (cells Lk !! j) as [c|] eqn:Ec.
    + destruct (attached c) eqn:Ea.
      * rewrite (visit_attached m Lk j c Ec Ea), Ec. rewrite <- Hv, Ec.
        reflexivity.
      * rewrite (visit_live m Lk j c Ec Ea). rewrite <- Hv, Ec. simpl.
        now rewrite step_one_view.
    + unfold visit. rewrite Ec, <- Hv, Ec. reflexivity.
  - intros Lk c Hv. simpl. f_equal.
    transitivity (step_one L c); [now apply step_one_same_views|].
    symmetry. apply step_one_same_views. split; auto.
Qed.

(** So is the third: [step_three] reads its own cell, the environment
    and the draws only. *)
Lemma phase_three_synchronous (coin : nat -> bool) (L : CrystalLattice) :
  phase_three coin L = for_cells_sync (step_three coin) L.
Proof.
  apply (for_cells_synchronous _
           (fun Lk => environment Lk = environment L)).
  - reflexivity.
  - intros Lk i He.
    destruct (visit_frame (step_three coin) Lk i) as (_ & Fe & _).
    congruence.
  - intros Lk c He. unfold step_three, noise_step. simpl. rewrite He.
    reflexivity.
Qed.

(** ** Growth: termination and the indices given to the environment *)

Section Growth.

Variable coin : nat -> bool.
Variables sin_deg cos_deg : Z -> Q.

Lemma phases_frame (L : CrystalLattice) :
  size (phase_three coin (phase_two (phase_one L))) = size L
  /\ iteration (phase_three coin (phase_two (phase_one L))) = iteration L
  /\ margin (phase_three coin (phase_two (phase_one L))) = margin L
  /\ max_steps (phase_three coin (phase_two (phase_one L))) = max_steps L.
Proof.
  destruct (for_cells_frame (step_three coin) (phase_two (phase_one L)))
    as (S3 & _ & I3 & M3 & X3 & _).
  destruct (for_cells_frame (fun L c => (step_two L c, draws L))
              (phase_one L)) as (S2 & _ & I2 & M2 & X2 & _).
  destruct (for_cells_frame (fun L c => (step_one L c, draws L)) L)
    as (S1 & _ & I1 & M1 & X1 & _).
  unfold phase_three, phase_two, phase_one in *.
  rewrite S3, S2, S1, I3, I2, I1, M3, M2, M1, X3, X2, X1. auto.
Qed.

Lemma step_frame (L : CrystalLattice) :
  size (state_of (step coin L)) = size L
  /\ iteration (state_of (step coin L)) = iteration L + 1
  /\ margin (state_of (step coin L)) = margin L
  /\ max_steps (state_of (step coin L)) = max_steps L.
Proof.
  destruct (phases_frame L) as (Hs & Hi & Hm & Hx).
  unfold step, bump_and_refresh.
  destruct (env_step _ _) as [env [|]];
    cbn [state_of size iteration margin max_steps];
    rewrite ?Hs, ?Hi, ?Hm, ?Hx; auto.
Qed.

Lemma rewrite_keys_log (cs : CurveSet) (x : Z) (keys : list CurveKey) :
  forall env env',
    rewrite_keys cs x keys env = Some env' ->
    step_calls env' = step_calls env /\ curves env' = curves env.
Proof.
  induction keys as [|key keys IH]; intros env env'; simpl.
  - intros [= <-]. auto.
  - destruct (curve_lookup cs key x) as [v|]; [|discriminate].
    intros H. apply IH in H. destruct key; simpl in H; exact H.
Qed.

Lemma env_step_log (env : CrystalEnvironment) (x : Z) :
  step_calls (fst (env_step env x)) = step_calls env ++ [x]
  /\ curves (fst (env_step env x)) = curves env.
Proof.
  unfold env_step. cbv zeta.
  change (curves (log_call env x)) with (curves env).
  destruct (curves env) as [cs|] eqn:E; [|auto].
  destruct (rewrite_keys cs x curve_keys (log_call env x)) as [env'|] eqn:R;
    cbn [fst]; [|auto].
  apply rewrite_keys_log in R. destruct R as [R1 R2].
  split; [exact R1|]. rewrite R2. exact E.
Qed.

(** A call of [CrystalEnvironment.step] that returns found its index
    inside the curve source. *)
Lemma env_step_returned (env : CrystalEnvironment) (x : Z) (cs : CurveSet) :
  curves env = Some cs -> snd (env_step env x) = true ->
  (0 <= x < cs_steps cs)%Z.
Proof.
  intros E. unfold env_step. simpl. rewrite E.
  unfold curve_keys. cbn [rewrite_keys]. unfold curve_lookup at 1.
  destruct (0 <=? x)%Z eqn:E0, (x <? cs_steps cs)%Z eqn:E1; simpl;
    try discriminate.
  intros _. lia.
Qed.

Lemma step_log (L : CrystalLattice) :
  step_calls (environment (state_of (step coin L)))
  = step_calls (environment L) ++ [iteration L + 1]
  /\ curves (environment (state_of (step coin L))) = curves (environment L).
Proof. rewrite step_environment. apply env_step_log. Qed.

Lemma step_returned (L L' : CrystalLattice) (cs : CurveSet) :
  step coin L = Returned L' -> curves (environment L) = Some cs ->
  (iteration L' < cs_steps cs)%Z.
Proof.
  intros Hs E.
  destruct (step_frame L) as (_ & Hi & _). rewrite Hs in Hi. simpl in Hi.
  rewrite Hi. revert Hs. unfold step, bump_and_refresh.
  rewrite phases_environment.
  destruct (phases_frame L) as (_ & -> & _).
  destruct (env_step (environment L) (iteration L + 1)) as [env ok] eqn:Ee.
  destruct ok; [|discriminate]. intros _.
  apply (env_step_returned (environment L) (iteration L + 1) cs E).
  rewrite Ee. reflexivity.
Qed.

Lemma headroom_false (L : CrystalLattice) :
  headroom sin_deg cos_deg L = Value false -> stops sin_deg cos_deg L.
Proof.
  unfold headroom, stops.
  destruct (negb (max_steps L =? 0)%Z && (iteration L >=? max_steps L)%Z)
    eqn:E.
  - intros _. left. apply andb_true_iff in E. destruct E as [E1 E2].
    apply negb_true_iff, Z.eqb_neq in E1. apply Z.geb_le in E2. lia.
  - destruct (snowflake_radius sin_deg cos_deg L 135) as [r| |];
      try discriminate.
    destruct (r >? _)%Z eqn:Er; [|discriminate].
    intros _. right. exists r. split; [reflexivity|].
    apply Z.gtb_lt in Er. lia.
Qed.

Lemma headroom_continues (L : CrystalLattice) :
  headroom sin_deg cos_deg L = Value true ->
  (max_steps L = 0 \/ iteration L < max_steps L)%Z.
Proof.
  unfold headroom.
  destruct (negb (max_steps L =? 0)%Z && (iteration L >=? max_steps L)%Z)
    eqn:E; [discriminate|].
  intros _. apply andb_false_iff in E. destruct E as [E|E].
  - apply negb_false_iff, Z.eqb_eq in E. auto.
  - right. destruct (Z.geb_spec (iteration L) (max_steps L)) as [|H];
      [discriminate|]. lia.
Qed.

Lemma headroom_fuel (L : CrystalLattice) :
  headroom sin_deg cos_deg L <> OutOfFuel.
Proof.
  unfold headroom. destruct (_ && _); [discriminate|].
  destruct (snowflake_radius sin_deg cos_deg L 135) as [r| |] eqn:E.
  - destruct (r >? _)%Z; discriminate.
  - discriminate.
  - now apply snowflake_radius_fuel in E.
Qed.

(** What holds of the state a run of [grow] ends in. *)
Lemma grow_post (fuel : nat) :
  forall (L : CrystalLattice) (o : Outcome),
    grow coin sin_deg cos_deg fuel L = Some o ->
    (iteration L < iteration (state_of o))%Z
    /\ max_steps (state_of o) = max_steps L
    /\ curves (environment (state_of o)) = curves (environment L)
    /\ step_calls (environment (state_of o))
       = step_calls (environment L)
         ++ Zrange (iteration L + 1) (iteration (state_of o))
    /\ ((max_steps L <> 0 /\ iteration L < max_steps L)%Z ->
        (iteration (state_of o) <= max_steps L)%Z)
    /\ (forall L', o = Returned L' ->
          stops sin_deg cos_deg L'
          /\ forall cs, curves (environment L) = Some cs ->
                        (iteration L' < cs_steps cs)%Z).
Proof.
  assert (Hone : forall a : Z, Zrange a a = [a]).
  { intros a. unfold Zrange. replace (a + 1 - a)%Z with 1%Z by lia.
    simpl. f_equal. lia. }
  assert (Hcons : forall a b : Z, (a <= b)%Z ->
                    Zrange a b = a :: Zrange (a + 1) b).
  { intros a b Hab. unfold Zrange.
    replace (Z.to_nat (b + 1 - a)) with (S (Z.to_nat (b + 1 - (a + 1))))
      by lia.
    cbn [seq map]. f_equal; [lia|].
    rewrite <- seq_shift, map_map. apply map_ext. intros k. lia. }
  induction fuel as [|fuel IH]; intros L o; [discriminate|].
  cbn [grow].
  destruct (step_frame L) as (Fs & Fi & Fm & Fx).
  destruct (step_log L) as (Flog & Fcur).
  assert (Hsingle : forall L1, state_of (step coin L) = L1 ->
            forall o1, state_of o1 = L1 ->
            (iteration L < iteration (state_of o1))%Z
            /\ max_steps (state_of o1) = max_steps L
            /\ curves (environment (state_of o1)) = curves (environment L)
            /\ step_calls (environment (state_of o1))
               = step_calls (environment L)
                 ++ Zrange (iteration L + 1) (iteration (state_of o1))
            /\ ((max_steps L <> 0 /\ iteration L < max_steps L)%Z ->
                (iteration (state_of o1) <= max_steps L)%Z)).
  { intros L1 E1 o1 ->. subst L1. rewrite Fi, Fx, Fcur, Flog, Hone.
    repeat split; auto; lia. }
  destruct (step coin L) as [L1|L1] eqn:Es; simpl in *.
  - destruct (headroom sin_deg cos_deg L1) as [[|]| |] eqn:Eh.
    + intros Hg. destruct (IH L1 o Hg) as (G1 & G2 & G3 & G4 & G5 & G6).
      apply headroom_continues in Eh.
      split; [lia|]. split; [congruence|]. split; [congruence|].
      split.
      { rewrite G4, Flog, <- app_assoc. f_equal. simpl.
        rewrite Fi. symmetry. apply Hcons. lia. }
      split.
      { intros [Hm Hlt]. rewrite <- Fx. apply G5. lia. }
      intros L' ->. destruct (G6 L' eq_refl) as [Hstop Hcs].
      split; [exact Hstop|]. intros cs E. apply Hcs. congruence.
    + intros [= <-].
      destruct (Hsingle L1 eq_refl (Returned L1) eq_refl)
        as (G1 & G2 & G3 & G4 & G5).
      split; [exact G1|]. split; [exact G2|]. split; [exact G3|].
      split; [exact G4|]. split; [exact G5|].
      intros L' [= <-]. split; [now apply headroom_false|].
      intros cs E. now apply (step_returned L).
    + intros [= <-].
      destruct (Hsingle L1 eq_refl (Raised L1) eq_refl)
        as (G1 & G2 & G3 & G4 & G5).
      split; [exact G1|]. split; [exact G2|]. split; [exact G3|].
      split; [exact G4|]. split; [exact G5|]. intros L' H. discriminate.
    + discriminate.
  - intros [= <-].
    destruct (Hsingle L1 eq_refl (Raised L1) eq_refl)
      as (G1 & G2 & G3 & G4 & G5).
    split; [exact G1|]. split; [exact G2|]. split; [exact G3|].
    split; [exact G4|]. split; [exact G5|]. intros L' H. discriminate.
Qed.

(** With a limit on the steps, [grow] ends within the turns the limit
    leaves. *)
Lemma grow_total (fuel : nat) :
  forall L : CrystalLattice,
    (max_steps L <> 0)%Z -> (iteration L < max_steps L)%Z ->
    (max_steps L - iteration L <= Z.of_nat fuel)%Z ->
    exists o, grow coin sin_deg cos_deg fuel L = Some o.
Proof.
  induction fuel as [|fuel IH]; intros L Hm Hlt Hfuel; [lia|].
  cbn [grow].
  destruct (step_frame L) as (Fs & Fi & Fm & Fx).
  destruct (step coin L) as [L1|L1] eqn:Es; simpl in *; [|eauto].
  destruct (headroom sin_deg cos_deg L1) as [[|]| |] eqn:Eh; eauto.
  - apply headroom_continues in Eh. apply IH; lia.
  - now apply headroom_fuel in Eh.
Qed.

(** C9, as the code has it. On a lattice of size 50 with [max_steps]
    200, as constructed (iteration 1), [grow] ends within 199 calls of
    [step]: it returns or raises with the iteration counter at most 200,
    and when it returns the counter equals [max_steps] or the measured
    radius exceeds the cutoff [round(margin * size / 2)]. *)
Theorem grow_terminates (L : CrystalLattice) :
  size L = 50%Z -> max_steps L = 200%Z -> iteration L = 1%Z ->
  exists o, grow coin sin_deg cos_deg 199 L = Some o
    /\ (iteration (state_of o) <= 200)%Z
    /\ forall L', o = Returned L' ->
         iteration L' = max_steps L'
         \/ exists r, snowflake_radius sin_deg cos_deg L' 135 = Value r
                      /\ (r > Float.round
                                (Float.mul (margin L') (half_width L')))%Z.
Proof.
  intros Hs Hm Hi.
  destruct (grow_total 199 L) as [o Ho]; [lia|lia|lia|].
  exists o. split; [exact Ho|].
  destruct (grow_post 199 L o Ho) as (G1 & G2 & _ & _ & G5 & G6).
  split; [rewrite <- Hm; apply G5; lia|].
  intros L1 E1. destruct (G6 L1 E1) as [[[_ Hge]|Hr] _].
  - left. subst o. simpl in *. specialize (G5 ltac:(lia)). lia.
  - right. exact Hr.
Qed.


End Growth.

(** * The properties at concrete inputs *)

Local Open Scope Q_scope.

(** The corner cell [(0, 0)] of [CrystalLattice(3)] after its
    [step_one]: a boundary cell with the seed as its one attached
    neighbour. *)
Lemma attachment_step_table_witness :
  let c := step_one lattice3 (new_cell _init_defaults (0, 0)%Z) in
  attached_neighbors c = attached_among lattice3 c
  /\ (attachment_step lattice3 c = true <->
      boundary c = true /\
      attachment_rule (environment lattice3) (attached_count lattice3 c)
        (boundary_mass c) (mass_around lattice3 c))
  /\ (boundary c = false -> attachment_step lattice3 c = false).
Proof.
  intros c.
  assert (H : attached_neighbors c = attached_among lattice3 c)
    by (vm_compute; reflexivity).
  split; [exact H|]. apply (attachment_step_table lattice3 c H).
Defined.

(** The lattice of size 7 after one call of [step]: the ray meets the
    seed, then a boundary cell, then a cell that is neither. *)
Lemma snowflake_radius_first_gap_witness :
  let L := state_of (step heads lattice7) in
  (forall d, on_ray L d -> is_Some (ray_cell sin_135 cos_135 L 135 d))
  /\ exists v, snowflake_radius sin_135 cos_135 L 135 = Value v.
Proof.
  intros L.
  assert (H : forall d, on_ray L d ->
                        is_Some (ray_cell sin_135 cos_135 L 135 d)).
  { intros d [H1 H2]. change (size L) with 7%Z in H2.
    assert (Hd : d = 1%Z \/ d = 2%Z \/ d = 3%Z \/ d = 4%Z) by lia.
    destruct Hd as [-> | [-> | [-> | ->] ] ]; vm_compute; eauto. }
  split; [exact H|].
  destruct (snowflake_radius_first_gap sin_135 cos_135 L 135 H)
    as (v & Hv & _).
  exists v. exact Hv.
Defined.

(** C3, the claim as worded, at the same input: the code answers 3, the
    distance of the first cell that is neither attached nor boundary,
    where the last attached-or-boundary step before it is at distance
    2. *)
Lemma snowflake_radius_counterexample :
  let L := state_of (step heads lattice7) in
  snowflake_radius sin_135 cos_135 L 135 = Value 3%Z
  /\ meets sin_135 cos_135 L 135 3 false
  /\ meets sin_135 cos_135 L 135 2 true
  /\ radius_by_spec sin_135 cos_135 L 135 = Value 2%Z
  /\ snowflake_radius sin_135 cos_135 L 135
     <> radius_by_spec sin_135 cos_135 L 135.
Proof.
  intros L.
  assert (H1 : snowflake_radius sin_135 cos_135 L 135 = Value 3%Z)
    by (vm_compute; reflexivity).
  assert (H2 : radius_by_spec sin_135 cos_135 L 135 = Value 2%Z)
    by (vm_compute; reflexivity).
  split; [exact H1|].
  split; [vm_compute; eauto|]. split; [vm_compute; eauto|].
  split; [exact H2|]. rewrite H1, H2. discriminate.
Qed.

Lemma crop_box_distance_witness :
  snowflake_radius sin_135 cos_135 lattice7 135 = Value 2%Z
  /\ exists d : Q,
       d <= half_width lattice7
       /\ 0 <= Float.sub (half_width lattice7) d
       /\ Float.add (half_width lattice7) d <= inject_Z (size lattice7).
Proof.
  assert (H : snowflake_radius sin_135 cos_135 lattice7 135 = Value 2%Z)
    by (vm_compute; reflexivity).
  split; [exact H|].
  destruct (crop_box_distance sin_135 cos_135 x_scale_factor lattice7
              None 2%Z H) as (d & _ & Hd).
  exists d. exact Hd.
Defined.

(** C4, the claim as worded, at [CrystalLattice(50, max_steps=200)]:
    the box is [(-2, 9, 30, 41)], whose first component is negative. *)
Lemma crop_box_counterexample :
  crop_snowflake sin_135 cos_135 x_scale_factor lattice50 None
  = Value (-2, 9, 30, 41)
  /\ ~ (0 <= -2).
Proof.
  split; [vm_compute; reflexivity|]. intros H. vm_compute in H.
  apply H. reflexivity.
Qed.

Lemma boundary_after_step_witness :
  exists c, cells lattice3_beta_04 !! 0%nat = Some c
    /\ exists c', cells (state_of (step heads lattice3_beta_04)) !! 0%nat
                  = Some c'
         /\ (attached c = false ->
             boundary c' = existsb attached (neighbors lattice3_beta_04 c))
         /\ (attached c = true -> boundary c' = boundary c).
Proof.
  exists (new_cell env_beta_04 (0, 0)%Z).
  assert (H : cells lattice3_beta_04 !! 0%nat
              = Some (new_cell env_beta_04 (0, 0)%Z))
    by (vm_compute; reflexivity).
  split; [exact H|].
  apply (boundary_after_step heads lattice3_beta_04 0%nat _ H).
Defined.

(** C5, the claim as worded, at [CrystalLattice(3,
    environment=CrystalEnvironment(beta=0.4))] after one call of [step]:
    the corner cell [(0, 0)] has attached and keeps its boundary flag. *)
Lemma boundary_flag_counterexample :
  let L := state_of (step heads lattice3_beta_04) in
  exists c, cells L !! 0%nat = Some c
    /\ attached c = true /\ boundary c = true
    /\ boundary c <> (negb (attached c)
                      && existsb attached (neighbors L c)).
Proof.
  intros L. vm_compute. eexists. split; [reflexivity|].
  repeat split; discriminate.
Qed.

Lemma attachment_is_terminal_witness :
  exists c, cells lattice3 !! 4%nat = Some c /\ attached c = true
    /\ cells (run heads 2 lattice3) !! 4%nat = Some c.
Proof.
  exists (attach (new_cell _init_defaults (1, 1)%Z) 1).
  assert (H : cells lattice3 !! 4%nat
              = Some (attach (new_cell _init_defaults (1, 1)%Z) 1))
    by (vm_compute; reflexivity).
  split; [exact H|]. split; [reflexivity|].
  destruct (attachment_is_terminal heads 2 lattice3 4%nat _ H)
    as (c' & Hc' & Hsame & _).
  destruct (Hsame eq_refl) as [-> _]. exact Hc'.
Defined.

Lemma masses_stay_nonneg_witness :
  new_lattice 3 None 0 None = Some lattice3
  /\ Forall nonneg_masses (cells (run heads 2 lattice3)).
Proof.
  assert (H : new_lattice 3 None 0 None = Some lattice3)
    by (vm_compute; reflexivity).
  split; [exact H|].
  apply (masses_stay_nonneg heads 3 None 0 None lattice3 2 H).
  - vm_compute. discriminate.
  - vm_compute. repeat split; discriminate.
  - intros cs Hcs. vm_compute in Hcs. discriminate.
Defined.

(** C8, the claim as worded, at [CrystalLattice(3,
    environment=CrystalEnvironment(sigma=0))]: the second call of [step]
    attaches nothing and its noise multiplies by 1, yet the total mass
    goes from 5.5 to 5.25194404. *)
Lemma total_mass_counterexample :
  total_mass (run heads 1 lattice3_quiet) == 11 # 2
  /\ total_mass (run heads 2 lattice3_quiet) == 131298601 # 25000000
  /\ map attached (cells (run heads 2 lattice3_quiet))
     = map attached (cells lattice3_quiet)
  /\ ~ total_mass (run heads 2 lattice3_quiet)
       == total_mass (run heads 1 lattice3_quiet).
Proof.
  assert (H1 : total_mass (run heads 1 lattice3_quiet) == 11 # 2)
    by (vm_compute; reflexivity).
  assert (H2 : total_mass (run heads 2 lattice3_quiet)
               == 131298601 # 25000000) by (vm_compute; reflexivity).
  split; [exact H1|]. split; [exact H2|].
  split; [vm_compute; reflexivity|].
  rewrite H1, H2. intros H. vm_compute in H. discriminate.
Qed.

Lemma grow_terminates_witness :
  size lattice50_tight = 50%Z /\ max_steps lattice50_tight = 200%Z
  /\ iteration lattice50_tight = 1%Z
  /\ exists o, grow heads sin_135 cos_135 199 lattice50_tight = Some o
               /\ (iteration (state_of o) <= 200)%Z.
Proof.
  assert (H1 : size lattice50_tight = 50%Z) by (vm_compute; reflexivity).
  assert (H2 : max_steps lattice50_tight = 200%Z)
    by (vm_compute; reflexivity).
  assert (H3 : iteration lattice50_tight = 1%Z)
    by (vm_compute; reflexivity).
  repeat (split; [assumption|]).
  destruct (grow_terminates heads sin_135 cos_135 lattice50_tight H1 H2 H3)
    as (o & Ho & Hit & _).
  exists o. auto.
Defined.

(** C9, the claim as worded, at [CrystalLattice(50, max_steps=200,
    margin=0.01)]: [grow] returns after one call of [step] with the
    counter at 2, not 200, and a measured radius of 3, above
    [margin * size / 2 = 0.25]. *)
Lemma grow_final_state_counterexample :
  match grow heads sin_135 cos_135 199 lattice50_tight with
  | Some (Returned L) =>
      iteration L = 2%Z /\ max_steps L = 200%Z
      /\ snowflake_radius sin_135 cos_135 L 135 = Value 3%Z
      /\ ~ (inject_Z 3 <= margin L * (inject_Z (size L) / 2)
            \/ iteration L = max_steps L)
  | _ => False
  end.
Proof.
  vm_compute. repeat split; try reflexivity.
  intros [H|H]; [apply H; reflexivity|discriminate].
Qed.


Lemma option_map_Some {A B : Type} (f : A -> B) (o : option A) (b : B) :
  option_map f o = Some b -> exists a, o = Some a /\ f a = b.
Proof. destruct o as [a|]; [|discriminate]. intros [= <-]. eauto. Qed.

(** [CrystalLattice(6, environment=env_order)] after four calls of
    [step], in the second loop of the fifth: the cell [(4, 2)] at
    position 16 is a boundary cell with three attached neighbours and a
    boundary mass below 1.  When its turn comes the cells before it have
    committed their diffusion already, and the sum it builds is
    3481/12250; over the masses as they stood when the iteration began
    the sum is 53847/85750. *)
Lemma second_loop_at_16 :
  match cells (phase_one lattice6_order) !! 16%nat with
  | Some c =>
      let in_loop :=
        fold_left (visit (fun L c => (step_two L c, draws L))) (seq 0 16)
          (phase_one lattice6_order) in
      let frozen := freezing_step in_loop
                      (set_diffusive_mass c (_next_dm c)) in
      boundary frozen = true
      /\ length (attached_neighbors frozen) = 3%nat
      /\ boundary_mass frozen = 190741 # 300125
      /\ summed_diffusion in_loop frozen = 3481 # 12250
      /\ summed_diffusion (phase_one lattice6_order) frozen = 53847 # 85750
  | None => False
  end.
Proof. vm_compute. repeat split. Qed.

(** C2. One call of [step] does not always give the state of the
    synchronous update: the first and third loops are synchronous
    ([phase_one_synchronous], [phase_three_synchronous]), but in the
    second loop [attachment_step] reads neighbours that have committed
    their diffusion already.  At the input above, with theta = 1/2
    between the two sums, the cell at position 16 attaches in [step] and
    does not attach in the synchronous update, so the two states
    differ. *)
Theorem step_reads_advanced_neighbours :
  (exists c, cells (state_of (step heads lattice6_order)) !! 16%nat = Some c
             /\ attached c = true)
  /\ (exists c, cells (state_of (step_sync heads lattice6_order)) !! 16%nat
                = Some c
                /\ attached c = false)
  /\ step heads lattice6_order <> step_sync heads lattice6_order.
Proof.
  assert (H1 : option_map attached
                 (cells (state_of (step heads lattice6_order)) !! 16%nat)
               = Some true)
    by (vm_compute; reflexivity).
  assert (H2 : option_map attached
                 (cells (state_of (step_sync heads lattice6_order))
                    !! 16%nat)
               = Some false)
    by (vm_compute; reflexivity).
  split; [exact (option_map_Some _ _ _ H1)|].
  split; [exact (option_map_Some _ _ _ H2)|].
  intros E.
  apply (f_equal (fun o => option_map attached
                             (cells (state_of o) !! 16%nat))) in E.
  cbv beta in E. rewrite H1, H2 in E. discriminate.
Qed.

Local Close Scope Q_scope.
